(** * viedo_check: motion classification and chronological concatenation

    A shallow embedding of [video_checker.py].  The Python and OpenCV
    primitives the program calls are modelled in [Py] and [Cv]; the four
    functions of the program ([check_video_motion], [parse_video_time],
    [concatenate_videos], [process_video_folder]) follow, then the
    properties proved about them. *)

From Stdlib Require Import ZArith Floats Uint63 Ascii String List Lia Bool.
From Stdlib Require Import Sorting.Sorted Sorting.Permutation.
From stdpp Require Import base option list strings gmap.

Local Open Scope Z_scope.

(** ** The Python runtime the program relies on *)

Module Py.

(** Exceptions the program can meet. *)
Inductive exn : Set :=
| ZeroDivisionError
| FileNotFoundError
| CvError.

(** A computation either returns or raises. *)
Inductive res (A : Type) : Type :=
| Ok (a : A)
| Raise (e : exn).
Arguments Ok {A} a.
Arguments Raise {A} e.

#[global] Instance res_ret : MRet res := fun A x => Ok x.
#[global] Instance res_bind : MBind res :=
  fun A B f m => match m with Ok a => f a | Raise e => Raise e end.
#[global] Instance res_fmap : FMap res :=
  fun A B f m => match m with Ok a => Ok (f a) | Raise e => Raise e end.

(** [float(n)] for an [int]; exact below 2^53, which covers every pixel
    count of a frame. *)
Definition int_to_float (z : Z) : float :=
  if z <? 0 then PrimFloat.opp (PrimFloat.of_uint63 (Uint63.of_Z (- z)))
  else PrimFloat.of_uint63 (Uint63.of_Z z).

(** [a / b] on two [int]s: a zero divisor raises, a zero dividend gives a
    signed zero, anything else the rounded quotient. *)
Definition int_true_div (a b : Z) : res float :=
  if b =? 0 then Raise ZeroDivisionError
  else if a =? 0 then Ok (if b <? 0 then (-0)%float else 0%float)
  else Ok (PrimFloat.div (int_to_float a) (int_to_float b)).

(** [a / b] where [a] is a NumPy integer and [b] an [int]: both become
    doubles and the IEEE quotient is returned; nothing is raised, a zero
    divisor gives NaN for a zero dividend and an infinity of the dividend's
    sign otherwise (with a warning).  Where the divisor is not zero the
    value is that of [int_true_div]. *)
Definition numpy_true_div (a b : Z) : float :=
  if b =? 0 then
    if a =? 0 then nan else if a <? 0 then neg_infinity else infinity
  else if a =? 0 then (if b <? 0 then (-0)%float else 0%float)
  else PrimFloat.div (int_to_float a) (int_to_float b).

(** [x / y] on floats: Python raises on a zero divisor of either sign. *)
Definition float_div (x y : float) : res float :=
  if PrimFloat.eqb y 0%float then Raise ZeroDivisionError
  else Ok (PrimFloat.div x y).

(** [max(a, b)] on floats keeps [a] unless [b] is strictly greater. *)
Definition float_max (a b : float) : float :=
  if PrimFloat.ltb a b then b else a.

(** Bounds of the slice [lo:hi] of a sequence of length [len]: negative
    indices count from the end, everything is clipped to [0, len]. *)
Definition slice_index (len i : Z) : Z :=
  if i <? 0 then Z.max (i + len) 0 else Z.min i len.

Definition in_slice (len lo hi i : Z) : bool :=
  (slice_index len lo <=? i) && (i <? slice_index len hi).

(** [sorted(l, key=key)]: the stable sort.  An element is put in front of
    the first later element whose key is not smaller. *)
Section Sorted.
Context {A K : Type} (leb : K -> K -> bool) (key : A -> K).

Fixpoint insert_sorted (x : A) (l : list A) : list A :=
  match l with
  | [] => [x]
  | y :: l' =>
      if leb (key x) (key y) then x :: y :: l' else y :: insert_sorted x l'
  end.

Fixpoint sorted (l : list A) : list A :=
  match l with
  | [] => []
  | x :: l' => insert_sorted x (sorted l')
  end.
End Sorted.

(** Order of the tuples [(minutes, seconds)]. *)
Definition tuple_leb (a b : Z * Z) : bool :=
  (a.1 <? b.1) || ((a.1 =? b.1) && (a.2 <=? b.2)).

(** [str.rfind(c)], with [None] for -1. *)
Fixpoint rfind (c : ascii) (s : string) : option nat :=
  match s with
  | EmptyString => None
  | String a s' =>
      match rfind c s' with
      | Some i => Some (S i)
      | None => if Ascii.eqb a c then Some 0%nat else None
      end
  end.

(** [str.lower()] on ASCII letters. *)
Definition lower_ascii (c : ascii) : ascii :=
  let n := nat_of_ascii c in
  if ((65 <=? n) && (n <=? 90))%nat then ascii_of_nat (n + 32) else c.

Fixpoint lower (s : string) : string :=
  match s with
  | EmptyString => EmptyString
  | String a s' => String (lower_ascii a) (lower s')
  end.

(** [pathlib]: the last component of a path, its suffix and its stem. *)
Definition path_name (p : string) : string :=
  match rfind "/" p with
  | Some i => substring (S i) (String.length p - S i) p
  | None => p
  end.

Definition split_point (name : string) : option nat :=
  match rfind "." name with
  | Some i =>
      if ((0 <? i) && (i <? String.length name - 1))%nat then Some i else None
  | None => None
  end.

Definition path_suffix (p : string) : string :=
  let name := path_name p in
  match split_point name with
  | Some i => substring i (String.length name - i) name
  | None => EmptyString
  end.

Definition path_stem (p : string) : string :=
  let name := path_name p in
  match split_point name with
  | Some i => substring 0 i name
  | None => name
  end.

(** [folder / name]. *)
Definition path_join (folder name : string) : string :=
  (folder +:+ "/" +:+ name)%string.

End Py.
Export Py.

(** ** Temporal key parser *)

(** [\d] on the (ASCII) characters of a file name. *)
Definition is_digit (c : ascii) : bool :=
  let n := nat_of_ascii c in ((48 <=? n) && (n <=? 57))%nat.

(** Greedy [\d*]: the longest run of digits and what follows it. *)
Fixpoint span_digits (s : string) : string * string :=
  match s with
  | EmptyString => (EmptyString, EmptyString)
  | String c s' =>
      if is_digit c then
        let '(d, r) := span_digits s' in (String c d, r)
      else (EmptyString, s)
  end.

(** [\d+] at the head of [s]. *)
Definition digits1 (s : string) : option (string * string) :=
  match span_digits s with
  | (EmptyString, _) => None
  | (d, r) => Some (d, r)
  end.

(** A literal character at the head of [s]. *)
Definition expect (c : ascii) (s : string) : option string :=
  match s with
  | String a r => if Ascii.eqb a c then Some r else None
  | EmptyString => None
  end.

(** [re.match(r'(\d+)M(\d+)S_\d+', s)]: the two groups of a match anchored
    at the start of [s].  Each run of digits is followed by a character
    that is no digit, so the greedy run is the only candidate. *)
Definition re_match (s : string) : option (string * string) :=
  '(g1, r) ← digits1 s;
  r ← expect "M" r;
  '(g2, r) ← digits1 r;
  r ← expect "S" r;
  r ← expect "_" r;
  _ ← digits1 r;
  Some (g1, g2).

(** [int(s)] on a string of decimal digits. *)
Definition digit_value (c : ascii) : Z := Z.of_nat (nat_of_ascii c) - 48.

Fixpoint int_of_digits (acc : Z) (s : string) : Z :=
  match s with
  | EmptyString => acc
  | String c s' => int_of_digits (10 * acc + digit_value c) s'
  end.

Definition int (s : string) : Z := int_of_digits 0 s.

Definition parse_video_time (filename : string) : Z * Z :=
  match re_match filename with
  | Some (g1, g2) => (int g1, int g2)
  | None => (0, 0)
  end.

(** What the pattern means, independently of how it is matched: a
    non-empty run of digits, [M], a non-empty run of digits, [S_], a
    non-empty run of digits, then anything. *)
Fixpoint all_digits (s : string) : bool :=
  match s with
  | EmptyString => true
  | String c s' => is_digit c && all_digits s'
  end.

Definition digit_run (s : string) : Prop :=
  s <> EmptyString /\ all_digits s = true.

Definition matches_pattern (s g1 g2 : string) : Prop :=
  exists g3 rest,
    s = (g1 +:+ "M" +:+ g2 +:+ "S_" +:+ g3 +:+ rest)%string
    /\ digit_run g1 /\ digit_run g2 /\ digit_run g3.

(** ** The OpenCV primitives the program calls *)

Module Cv.

(** An image is a list of rows of 8-bit values (0 to 255); a colour pixel
    is a (B, G, R) triple. *)
Abbreviation image A := (list (list A)).
Definition Pixel : Type := (Z * Z * Z)%type.

(** [img.shape[0]] and [img.shape[1]]. *)
Definition height {A} (img : image A) : Z := Z.of_nat (length img).
Definition width {A} (img : image A) : Z :=
  match img with
  | [] => 0
  | row :: _ => Z.of_nat (length row)
  end.

Definition pixel_at (img : image Z) (y x : Z) : option Z :=
  if (0 <=? y) && (0 <=? x) then
    row ← img !! Z.to_nat y; row !! Z.to_nat x
  else None.

(** [cv2.absdiff]: arrays of different sizes are refused. *)
Definition absdiff (a b : image Z) : res (image Z) :=
  if (height a =? height b) && (width a =? width b) then
    Ok (zip_with (zip_with (fun u v => Z.abs (u - v))) a b)
  else Raise CvError.

(** [cv2.threshold(src, t, maxval, THRESH_BINARY)[1]]. *)
Definition threshold (src : image Z) (t maxval : Z) : image Z :=
  (fun row : list Z => (fun v => if t <? v then maxval else 0) <$> row) <$> src.

(** [cv2.dilate(src, None, iterations=n)]: each pass takes the maximum over
    the 3x3 neighbourhood (the pixel itself and the eight around it);
    positions beyond the border do not take part. *)
Definition neighbourhood : list (Z * Z) :=
  [(-1, -1); (-1, 0); (-1, 1); (0, -1); (0, 1); (1, -1); (1, 0); (1, 1)].

Definition dilate_once (src : image Z) : image Z :=
  imap (fun y row =>
    imap (fun x v =>
      foldr Z.max v
        (omap (fun d => pixel_at src (Z.of_nat y + d.1) (Z.of_nat x + d.2))
              neighbourhood)) row) src.

Fixpoint dilate (src : image Z) (iterations : nat) : image Z :=
  match iterations with
  | O => src
  | S n => dilate (dilate_once src) n
  end.

(** [np.count_nonzero]. *)
Definition count_nonzero (img : image Z) : Z :=
  foldr (fun row acc =>
    Z.of_nat (length (filter (fun v => v <> 0) row)) + acc) 0 img.

(** What depends on the installed libraries: the two conversions whose
    arithmetic belongs to OpenCV, [cv2.cvtColor(_, COLOR_BGR2GRAY)] and
    [cv2.GaussianBlur(_, (21, 21), 0)], and the type of the value
    [np.count_nonzero] returns: a NumPy integer ([np.int64]) from
    NumPy 2.3 on, a Python [int] before. *)
Class OpenCV := {
  cvtColor : image Pixel -> image Z;
  GaussianBlur : image Z -> image Z;
  count_nonzero_int64 : bool
}.

(** A reference implementation in 8-bit fixed point, used to run the
    program on concrete frames: luminance 0.299 R + 0.587 G + 0.114 B,
    and a separable 21-tap Gaussian (sigma 3.5, weights in 1/256) with
    the border reflected (BORDER_REFLECT_101), once with each type of
    count.  The general properties below hold for every [OpenCV],
    whatever its arithmetic. *)
Definition bgr2gray (p : Pixel) : Z :=
  let '(b, g, r) := p in
  Z.shiftr (3735 * b + 19235 * g + 9798 * r + 16384) 15.

Definition gauss21 : list Z :=
  [0; 1; 2; 4; 7; 11; 15; 20; 25; 28; 30; 28; 25; 20; 15; 11; 7; 4; 2; 1; 0].

Definition reflect101 (len p : Z) : Z :=
  if len =? 1 then 0
  else
    let period := 2 * (len - 1) in
    let q := p mod period in
    if q <? len then q else period - q.

Definition tap {A} (l : list A) (d : A) (centre : nat) (i : nat) : A :=
  let len := Z.of_nat (length l) in
  nth (Z.to_nat (reflect101 len (Z.of_nat centre + Z.of_nat i - 10))) l d.

Definition blur_row (row : list Z) : list Z :=
  imap (fun x _ =>
    foldr Z.add 0 (imap (fun i w => w * tap row 0 x i) gauss21)) row.

Definition blur_columns (img : image Z) : image Z :=
  imap (fun y row =>
    foldr (zip_with Z.add) (map (fun _ => 0) row)
      (imap (fun i w => map (Z.mul w) (tap img [] y i)) gauss21)) img.

Definition gaussian21 (img : image Z) : image Z :=
  map (map (fun v => Z.shiftr (v + 32768) 16)) (blur_columns (map blur_row img)).

Definition reference : OpenCV :=
  {| cvtColor := map (map bgr2gray); GaussianBlur := gaussian21;
     count_nonzero_int64 := false |}.

Definition reference_np : OpenCV :=
  {| cvtColor := map (map bgr2gray); GaussianBlur := gaussian21;
     count_nonzero_int64 := true |}.

(** What [cv2.VideoCapture(path)] answers for a file: whether it opens,
    the frames [read()] yields in order, and the container's properties. *)
Inductive Codec : Set := H264 | mp4v | other_codec.

Record Capture := {
  isOpened : bool;
  frames : list (image Pixel);
  CAP_PROP_FRAME_COUNT : Z;
  CAP_PROP_FPS : float;
  CAP_PROP_FRAME_WIDTH : Z;
  CAP_PROP_FRAME_HEIGHT : Z;
  CAP_PROP_FOURCC : Codec
}.

(** The frames successive [read()] calls return; none on a capture that
    did not open. *)
Definition read_all (cap : Capture) : list (image Pixel) :=
  if isOpened cap then frames cap else [].

(** [cv2.VideoWriter]: the frames it has encoded so far.  Writing to a
    writer that did not open does nothing, and such a writer leaves no
    file; an open writer encodes the frames that have the size it was
    opened with and drops every other frame. *)
Record VideoWriter := {
  w_isOpened : bool;
  w_path : string;
  w_fourcc : Codec;
  w_fps : float;
  w_size : Z * Z;
  w_frames : list (image Pixel)
}.

Definition fits {A} (size : Z * Z) (frame : image A) : bool :=
  (width frame =? size.1) && (height frame =? size.2).

Definition write (out : VideoWriter) (frame : image Pixel) : VideoWriter :=
  if w_isOpened out && fits (w_size out) frame then
    {| w_isOpened := true; w_path := w_path out; w_fourcc := w_fourcc out;
       w_fps := w_fps out; w_size := w_size out;
       w_frames := w_frames out ++ [frame] |}
  else out.

(** The file a released writer leaves behind. *)
Definition written_file (out : VideoWriter) : Capture :=
  {| isOpened := true;
     frames := w_frames out;
     CAP_PROP_FRAME_COUNT := Z.of_nat (length (w_frames out));
     CAP_PROP_FPS := w_fps out;
     CAP_PROP_FRAME_WIDTH := (w_size out).1;
     CAP_PROP_FRAME_HEIGHT := (w_size out).2;
     CAP_PROP_FOURCC := w_fourcc out |}.

End Cv.
Export Cv.

(** ** The world the program runs in *)

(** The file system maps a path to what decoding the file there gives. *)
Abbreviation FileSystem := (gmap string Capture).

(** What the runtime offers: which codecs a writer can be opened with, and
    the external encoder ([None]: no such command; a function that returns
    [None] on an input: the encoder exits with an error). *)
Record Env := {
  codec_available : Codec -> bool;
  ffmpeg : option (Capture -> option Capture)
}.

(** Diagnostic lines, one constructor per [print] of the program. *)
Inductive Msg : Type :=
| MsgCannotOpen (path : string)
| MsgNoVideos
| MsgWriterFallback
| MsgProcessing (path : string)
| MsgConcatDone (path : string)
| MsgCompressDone
| MsgCompressFailed (e : exn)
| MsgDelete (path : string)
| MsgMissing (path : string)
| MsgKeep (path : string).

Record State := {
  fs : FileSystem;
  stdout : list Msg
}.

Definition print (m : Msg) (st : State) : State :=
  {| fs := fs st; stdout := stdout st ++ [m] |}.

Definition with_fs (f : FileSystem) (st : State) : State :=
  {| fs := f; stdout := stdout st |}.

Definition not_found : Capture :=
  {| isOpened := false; frames := []; CAP_PROP_FRAME_COUNT := 0;
     CAP_PROP_FPS := 0%float; CAP_PROP_FRAME_WIDTH := 0;
     CAP_PROP_FRAME_HEIGHT := 0; CAP_PROP_FOURCC := other_codec |}.

Definition VideoCapture (f : FileSystem) (path : string) : Capture :=
  default not_found (f !! path).

Definition os_path_exists (f : FileSystem) (path : string) : bool :=
  bool_decide (is_Some (f !! path)).

Definition os_remove (path : string) (f : FileSystem) : res FileSystem :=
  match f !! path with
  | Some _ => Ok (delete path f)
  | None => Raise FileNotFoundError
  end.

Definition os_rename (src dst : string) (f : FileSystem) : res FileSystem :=
  match f !! src with
  | Some v => Ok (<[dst := v]> (delete src f))
  | None => Raise FileNotFoundError
  end.

(** [os.system('ffmpeg -i "src" -c:v libx264 -crf 23 "dst"')]: returns the
    wait status (exit code 127 of the shell when the command is missing,
    1 when the encoder gives up) and never raises. *)
Definition os_system_ffmpeg (env : Env) (src dst : string) (f : FileSystem)
  : FileSystem * Z :=
  match ffmpeg env with
  | None => (f, 32512)
  | Some encode =>
      match f !! src ≫= encode with
      | Some v => (<[dst := v]> f, 0)
      | None => (f, 256)
      end
  end.

Definition new_writer (env : Env) (path : string) (fourcc : Codec)
    (fps : float) (size : Z * Z) : VideoWriter :=
  {| w_isOpened := codec_available env fourcc; w_path := path;
     w_fourcc := fourcc; w_fps := fps; w_size := size; w_frames := [] |}.

Definition release (out : VideoWriter) (f : FileSystem) : FileSystem :=
  if w_isOpened out then <[w_path out := written_file out]> f else f.

(** ** Motion classifier: [check_video_motion] *)

(** The mask rectangle [(x1, y1, x2, y2)]. *)
Definition TimeBox : Type := (Z * Z * Z * Z)%type.

(** [frame[y1:y2, x1:x2] = 0]. *)
Definition in_box (tb : TimeBox) (h w y x : Z) : bool :=
  let '(x1, y1, x2, y2) := tb in
  in_slice h y1 y2 y && in_slice w x1 x2 x.

Definition fill_box {A} (zero : A) (tb : TimeBox) (img : image A) : image A :=
  imap (fun y row =>
    imap (fun x v =>
      if in_box tb (height img) (Z.of_nat (length row))
                (Z.of_nat y) (Z.of_nat x)
      then zero else v) row) img.

Definition black : Pixel := (0, 0, 0).

(** The local variables of the sampling loop. *)
Record Locals := {
  has_motion : bool;
  frame_idx : Z;
  max_diff : Z;
  max_ratio : float;
  total_checked_frames : Z;
  prev_frame_gray : image Z
}.

Section Classifier.
Context {cv : OpenCV}.

(** Mask, grey and blur: what is done to the first frame and to every
    sampled frame. *)
Definition prepare (tb : TimeBox) (frame : image Pixel) : image Z :=
  GaussianBlur (cvtColor (fill_box black tb frame)).

(** [total_pixels]. *)
Definition total_pixels_of (tb : TimeBox) (gray : image Z) : Z :=
  let '(x1, y1, x2, y2) := tb in
  height gray * width gray - (x2 - x1) * (y2 - y1).

(** The changed-pixel mask of two prepared frames. *)
Definition changed_pixels (frame_gray prev_gray : image Z) : res (image Z) :=
  diff ← absdiff frame_gray prev_gray;
  Ok (dilate (threshold diff 25 255) 2).

(** [diff_count / total_pixels], by the type of [diff_count]. *)
Definition count_div (diff_count total_pixels : Z) : res float :=
  if count_nonzero_int64 then Ok (numpy_true_div diff_count total_pixels)
  else int_true_div diff_count total_pixels.

(** One comparison: the prepared frame, [diff_count] and [diff_ratio]. *)
Definition compare_frames (tb : TimeBox) (total_pixels : Z)
    (prev_gray : image Z) (frame : image Pixel)
  : res (image Z * Z * float) :=
  let frame_gray := prepare tb frame in
  thresh ← changed_pixels frame_gray prev_gray;
  let diff_count := count_nonzero thresh in
  q ← count_div diff_count total_pixels;
  let diff_ratio := PrimFloat.mul q (int_to_float 100) in
  Ok (frame_gray, diff_count, diff_ratio).

(** The [while True] loop over the frames still to be read. *)
Fixpoint sampling_loop (threshold : Z) (tb : TimeBox) (ratio_threshold : float)
    (check_interval total_pixels : Z)
    (rest : list (image Pixel)) (l : Locals) : res Locals :=
  match rest with
  | [] => Ok l
  | frame :: rest' =>
      let idx := frame_idx l + 1 in
      if negb (idx mod check_interval =? 0) then
        sampling_loop threshold tb ratio_threshold check_interval total_pixels
          rest'
          {| has_motion := has_motion l; frame_idx := idx;
             max_diff := max_diff l; max_ratio := max_ratio l;
             total_checked_frames := total_checked_frames l;
             prev_frame_gray := prev_frame_gray l |}
      else
        '(frame_gray, diff_count, diff_ratio) ←
          compare_frames tb total_pixels (prev_frame_gray l) frame;
        let checked := total_checked_frames l + 1 in
        let max_diff' := Z.max (max_diff l) diff_count in
        let max_ratio' := float_max (max_ratio l) diff_ratio in
        if (threshold <? diff_count) && PrimFloat.ltb ratio_threshold diff_ratio
        then
          Ok {| has_motion := true; frame_idx := idx;
                max_diff := max_diff'; max_ratio := max_ratio';
                total_checked_frames := checked;
                prev_frame_gray := prev_frame_gray l |}
        else
          sampling_loop threshold tb ratio_threshold check_interval
            total_pixels rest'
            {| has_motion := has_motion l; frame_idx := idx;
               max_diff := max_diff'; max_ratio := max_ratio';
               total_checked_frames := checked;
               prev_frame_gray := frame_gray |}
  end.

(** The body after the two early returns: the first frame is the
    reference, the rest goes through the loop. *)
Definition scan_frames (cap : Capture) (threshold : Z) (tb : TimeBox)
    (ratio_threshold : float)
    (prev_frame : image Pixel) (rest : list (image Pixel)) : res Locals :=
  let frame_count := CAP_PROP_FRAME_COUNT cap in
  _ ← float_div (int_to_float frame_count) (CAP_PROP_FPS cap);
  let prev_gray := prepare tb prev_frame in
  let check_interval := Z.max 1 (frame_count / 20) in
  let total_pixels := total_pixels_of tb prev_gray in
  sampling_loop threshold tb ratio_threshold check_interval total_pixels rest
    {| has_motion := false; frame_idx := 0; max_diff := 0;
       max_ratio := 0%float; total_checked_frames := 0;
       prev_frame_gray := prev_gray |}.

Definition check_video_motion (cap : Capture) (threshold : Z) (tb : TimeBox)
    (ratio_threshold : float) : res bool :=
  if negb (isOpened cap) then Ok true
  else
    match frames cap with
    | [] => Ok true
    | prev_frame :: rest =>
        has_motion <$> scan_frames cap threshold tb ratio_threshold prev_frame rest
    end.

End Classifier.

(** ** Concatenator: [concatenate_videos] *)

Definition temporal_key (path : string) : Z * Z :=
  parse_video_time (path_stem path).

Definition sorted_videos (video_files : list string) : list string :=
  sorted tuple_leb temporal_key video_files.

(** The writer: H264 first, mp4v when that one did not open. *)
Definition open_writer (env : Env) (output_path : string) (fps : float)
    (size : Z * Z) (st : State) : VideoWriter * State :=
  let out := new_writer env output_path H264 fps size in
  if negb (w_isOpened out) then
    (new_writer env output_path mp4v fps size, print MsgWriterFallback st)
  else (out, st).

(** The [for video_path in sorted_videos] loop. *)
Fixpoint write_clips (videos : list string) (out : VideoWriter) (st : State)
  : VideoWriter * State :=
  match videos with
  | [] => (out, st)
  | video_path :: videos' =>
      let st := print (MsgProcessing video_path) st in
      let cap := VideoCapture (fs st) video_path in
      write_clips videos' (foldl write out (read_all cap)) st
  end.

(** The [try] block of the second pass, and its [except].  Of the three
    steps only the rename can raise here (the temporary file is there once
    it succeeded), and it raises before anything has changed. *)
Definition compress_steps (env : Env) (output_path : string) (st : State)
  : res State :=
  let temp_output := (output_path +:+ ".temp.mp4")%string in
  f ← os_rename output_path temp_output (fs st);
  let '(f, _) := os_system_ffmpeg env temp_output output_path f in
  f ← os_remove temp_output f;
  Ok (print MsgCompressDone (with_fs f st)).

Definition compress (env : Env) (output_path : string) (st : State) : State :=
  match compress_steps env output_path st with
  | Ok st' => st'
  | Raise e => print (MsgCompressFailed e) st
  end.

Definition concatenate_videos (env : Env) (video_files : list string)
    (output_path : string) (st : State) : State :=
  match video_files with
  | [] => print MsgNoVideos st
  | _ :: _ =>
      let videos := sorted_videos video_files in
      let first := hd EmptyString videos in
      let first_video := VideoCapture (fs st) first in
      if negb (isOpened first_video) then print (MsgCannotOpen first) st
      else
        let size := (CAP_PROP_FRAME_WIDTH first_video,
                     CAP_PROP_FRAME_HEIGHT first_video) in
        let fps := CAP_PROP_FPS first_video in
        let st :=
          if os_path_exists (fs st) output_path
          then with_fs (delete output_path (fs st)) st else st in
        let '(out, st) := open_writer env output_path fps size st in
        let '(out, st) := write_clips videos out st in
        let st := with_fs (release out (fs st)) st in
        let st := print (MsgConcatDone output_path) st in
        compress env output_path st
  end.

(** ** Folder orchestrator: [process_video_folder] *)

Definition video_extensions : list string := [".mp4"; ".avi"; ".mkv"]%string.

Definition is_video (path : string) : bool :=
  bool_decide (lower (path_suffix path) ∈ video_extensions).

Section Orchestrator.
Context {cv : OpenCV}.

(** The loop over the files the walk enumerates; [kept] is
    [kept_videos].  [os.remove] runs only after [os.path.exists] and so
    does not raise. *)
Fixpoint process_files (files : list string) (threshold : Z) (tb : TimeBox)
    (ratio_threshold : float) (kept : list string) (st : State)
  : res (list string * State) :=
  match files with
  | [] => Ok (kept, st)
  | video_file :: files' =>
      if is_video video_file then
        let st := print (MsgProcessing video_file) st in
        moved ← check_video_motion (VideoCapture (fs st) video_file)
                  threshold tb ratio_threshold;
        if negb moved then
          let st := print (MsgDelete video_file) st in
          let st :=
            if os_path_exists (fs st) video_file
            then with_fs (delete video_file (fs st)) st
            else print (MsgMissing video_file) st in
          process_files files' threshold tb ratio_threshold kept st
        else
          let st := print (MsgKeep video_file) st in
          process_files files' threshold tb ratio_threshold
            (kept ++ [video_file]) st
      else process_files files' threshold tb ratio_threshold kept st
  end.

Definition output_name : string := "concatenated_output.mp4".

(** [files] is what [folder.glob('**/*')] enumerates. *)
Definition process_video_folder (env : Env) (folder_path : string)
    (files : list string) (threshold : Z) (concat : bool) (tb : TimeBox)
    (ratio_threshold : float) (st : State) : res State :=
  '(kept_videos, st) ←
    process_files files threshold tb ratio_threshold [] st;
  if concat && negb (bool_decide (kept_videos = [])) then
    Ok (concatenate_videos env kept_videos
          (path_join folder_path output_name) st)
  else Ok st.

End Orchestrator.

(** ** Vocabulary of the specification *)

(** The mask-region invariant for a frame of width [w] and height [h]. *)
Definition mask_invariant (tb : TimeBox) (w h : Z) : Prop :=
  let '(x1, y1, x2, y2) := tb in
  0 <= x1 <= x2 /\ x2 <= w /\ 0 <= y1 <= y2 /\ y2 <= h.

Definition mask_area (tb : TimeBox) : Z :=
  let '(x1, y1, x2, y2) := tb in (x2 - x1) * (y2 - y1).

(** Two frames that may differ only inside the mask rectangle. *)
Definition agree_outside {A} (tb : TimeBox) (f g : image A) : Prop :=
  length f = length g /\
  forall (y : nat) (row row' : list A),
    f !! y = Some row -> g !! y = Some row' ->
    length row = length row' /\
    forall x : nat,
      in_box tb (height f) (Z.of_nat (length row)) (Z.of_nat y) (Z.of_nat x)
        = false ->
      row !! x = row' !! x.

(** The number of positions of an [h] x [w] frame the mask leaves out of
    the rectangle. *)
Definition outside_in_row (tb : TimeBox) (h w : nat) (y : nat) : nat :=
  length (filter (fun x : nat =>
            in_box tb (Z.of_nat h) (Z.of_nat w) (Z.of_nat y) (Z.of_nat x) = false)
          (seq 0 w)).

Definition outside_count (tb : TimeBox) (h w : nat) : nat :=
  foldr (fun y acc => (outside_in_row tb h w y + acc)%nat) 0%nat (seq 0 h).

(** The changed pixels that lie outside the mask rectangle. *)
Definition count_outside (tb : TimeBox) (thresh : image Z) : Z :=
  count_nonzero (fill_box 0 tb thresh).

(** The claim that only pixels outside the mask are counted, for one pair
    of frames. *)
Definition counts_only_outside {cv : OpenCV} (tb : TimeBox)
    (prev frame : image Pixel) : Prop :=
  forall thresh,
    changed_pixels (prepare tb frame) (prepare tb prev) = Ok thresh ->
    count_nonzero thresh = count_outside tb thresh.

(** The claim that frames equal after masking compare as [(0, 0.0)]. *)
Definition equal_frames_compare_zero {cv : OpenCV} (tb : TimeBox)
    (a b : image Pixel) : Prop :=
  fill_box black tb a = fill_box black tb b ->
  compare_frames tb (total_pixels_of tb (prepare tb a)) (prepare tb a) b
    = Ok (prepare tb b, 0, 0%float).

(** The claim that a mask covering the whole frame makes the
    classification of every clip of two frames or more fail. *)
Definition full_mask_always_fails {cv : OpenCV} (tb : TimeBox)
    (cap : Capture) : Prop :=
  forall threshold ratio_threshold f0 rest,
    isOpened cap = true -> frames cap = f0 :: rest -> rest <> [] ->
    total_pixels_of tb (prepare tb f0) = 0 ->
    check_video_motion cap threshold tb ratio_threshold
      = Raise ZeroDivisionError.

(** The clips a log reports as being processed, in order. *)
Definition processed (log : list Msg) : list string :=
  omap (fun m => match m with MsgProcessing p => Some p | _ => None end) log.

(** The claim that the concatenation stops where both writers failed to
    open: nothing is printed after the notice of the fallback. *)
Definition aborts_without_writer (env : Env) (video_files : list string)
    (output_path : string) (st : State) : Prop :=
  codec_available env H264 = false ->
  codec_available env mp4v = false ->
  stdout (concatenate_videos env video_files output_path st)
  = stdout st ++ [MsgWriterFallback].

(** The verdict of the classifier on the file at a path, and the two
    verdicts the folder pass acts on. *)
Definition verdict {cv : OpenCV} (f : FileSystem) (threshold : Z)
    (tb : TimeBox) (ratio_threshold : float) (path : string) : res bool :=
  check_video_motion (VideoCapture f path) threshold tb ratio_threshold.

Definition keeps (v : res bool) : bool :=
  match v with Ok true => true | _ => false end.

Definition deletes (v : res bool) : bool :=
  match v with Ok false => true | _ => false end.

(** [get_video_duration]: 0 for a file that does not open, otherwise the
    reported frame count over the frame rate. *)
Definition get_video_duration (cap : Capture) : res float :=
  if negb (isOpened cap) then Ok 0%float
  else float_div (int_to_float (CAP_PROP_FRAME_COUNT cap)) (CAP_PROP_FPS cap).

(** The frames the clips at the given paths yield, one clip after the
    other. *)
Definition clip_frames (f : FileSystem) (videos : list string)
  : list (image Pixel) :=
  concat ((fun p => read_all (VideoCapture f p)) <$> videos).

(** The file the first pass of a concatenation writes when a writer
    opens: those frames of the clips in temporal order, read after a file
    at the output path has been removed, that have the size the first clip
    reports, with the frame rate and size of the first clip, under H264
    when that codec is available and mp4v otherwise. *)
Definition first_pass_file (env : Env) (video_files : list string)
    (output_path : string) (st : State) : Capture :=
  let videos := sorted_videos video_files in
  let first_video := VideoCapture (fs st) (hd EmptyString videos) in
  let source := delete output_path (fs st) in
  let size := (CAP_PROP_FRAME_WIDTH first_video,
               CAP_PROP_FRAME_HEIGHT first_video) in
  let written :=
    filter (fun frame => fits size frame = true) (clip_frames source videos) in
  {| isOpened := true;
     frames := written;
     CAP_PROP_FRAME_COUNT := Z.of_nat (length written);
     CAP_PROP_FPS := CAP_PROP_FPS first_video;
     CAP_PROP_FRAME_WIDTH := CAP_PROP_FRAME_WIDTH first_video;
     CAP_PROP_FRAME_HEIGHT := CAP_PROP_FRAME_HEIGHT first_video;
     CAP_PROP_FOURCC := if codec_available env H264 then H264 else mp4v |}.

(** [img.size]: the number of pixels of an image. *)
Definition pixels {A} (img : image A) : Z := Z.of_nat (length (concat img)).

(** A binary64 value whose sign bit is [s], or a NaN. *)
Definition sf_signed (s : bool) (x : spec_float) : Prop :=
  match x with
  | S754_zero s' | S754_infinity s' | S754_finite s' _ _ => s' = s
  | S754_nan => True
  end.

(** ** Concrete inputs *)

(** The defaults of the command line: threshold 500, mask (0, 0, 150, 40),
    ratio threshold 0.1 (the nearest binary64 value). *)
Definition default_threshold : Z := 500.
Definition default_time_box : TimeBox := (0, 0, 150, 40).
Definition default_ratio_threshold : float := 0x1.999999999999ap-4%float.

Definition solid (v : Z) (h w : nat) : image Pixel :=
  replicate h (replicate w (v, v, v)).

Definition corner_box : TimeBox := (0, 0, 2, 2).

Definition clip_of (fps : float) (reported : Z) (fr : list (image Pixel))
  : Capture :=
  {| isOpened := true; frames := fr; CAP_PROP_FRAME_COUNT := reported;
     CAP_PROP_FPS := fps;
     CAP_PROP_FRAME_WIDTH := match fr with f :: _ => width f | [] => 0 end;
     CAP_PROP_FRAME_HEIGHT := match fr with f :: _ => height f | [] => 0 end;
     CAP_PROP_FOURCC := H264 |}.

(** A clip of three 2x2 frames whose container reports a hundred. *)
Definition short_clip : Capture :=
  clip_of 25%float 100 [solid 0 2 2; solid 255 2 2; solid 0 2 2].

(** The same three frames, reported as three. *)
Definition three_frames : Capture :=
  clip_of 25%float 3 [solid 0 2 2; solid 255 2 2; solid 0 2 2].

(** A runtime where H264 opens and no external encoder is installed. *)
Definition no_encoder : Env :=
  {| codec_available := fun c => match c with H264 => true | _ => false end;
     ffmpeg := None |}.

(** A runtime where H264 opens and the external encoder exits with an
    error on every input. *)
Definition failing_encoder : Env :=
  {| codec_available := fun c => match c with H264 => true | _ => false end;
     ffmpeg := Some (fun _ => None) |}.

(** A runtime where no writer opens. *)
Definition no_codec : Env :=
  {| codec_available := fun _ => false; ffmpeg := None |}.

Definition one_clip_folder : State :=
  {| fs := {[ "/v/01M05S_1.mp4"%string := three_frames ]}; stdout := [] |}.

Definition first_clip : string := "/v/01M05S_1.mp4".
Definition output_file : string := "/v/concatenated_output.mp4".

(** A folder whose only clip shows the same frame three times. *)
Definition static_clip : Capture :=
  clip_of 25%float 3 [solid 7 2 2; solid 7 2 2; solid 7 2 2].

Definition static_folder : State :=
  {| fs := {[ first_clip := static_clip ]}; stdout := [] |}.

(** A mask of one pixel, and a folder whose only clip opens but yields no
    frame. *)
Definition small_box : TimeBox := (0, 0, 1, 1).

Definition broken_clip : Capture := clip_of 25%float 0 [].

Definition broken_folder : State :=
  {| fs := {[ first_clip := broken_clip ]}; stdout := [] |}.

(** Two 2x2 frames that differ in the top-left pixel only. *)
Definition frame_a : image Pixel :=
  [[(1, 1, 1); (5, 5, 5)]; [(5, 5, 5); (5, 5, 5)]].
Definition frame_b : image Pixel :=
  [[(200, 90, 3); (5, 5, 5)]; [(5, 5, 5); (5, 5, 5)]].

(** The three frames of [three_frames] followed by a fourth, still
    reported as three. *)
Definition four_frames : Capture :=
  clip_of 25%float 3 (frames three_frames ++ [solid 9 2 2]).

(** A mask of five pixels' area, of which a 2x2 frame holds two. *)
Definition tall_box : TimeBox := (0, 0, 1, 5).

(** A folder with a clip that does not change, a clip that does and a
    file that is no video, and the walk over it. *)
Definition moving_clip_path : string := "/v/04M21S_2.mp4".
Definition notes_path : string := "/v/notes.txt".

Definition mixed_folder : State :=
  {| fs := {[ first_clip := static_clip; moving_clip_path := three_frames;
              notes_path := not_found ]};
     stdout := [] |}.

Definition mixed_walk : list string :=
  [first_clip; notes_path; moving_clip_path].

(** A folder whose only clip reports a frame rate of zero. *)
Definition zero_fps_clip : Capture :=
  clip_of 0%float 3 [solid 0 2 2; solid 255 2 2; solid 0 2 2].

Definition zero_fps_folder : State :=
  {| fs := {[ first_clip := zero_fps_clip ]}; stdout := [] |}.

Definition three_clips : list string :=
  ["/v/04M21S_1723482261.mp4"; "/v/01M05S_1723482065.mp4";
   "/v/04M20S_1723482260.mp4"]%string.

Definition three_clip_folder : State :=
  {| fs := list_to_map ((fun p => (p, three_frames)) <$> three_clips);
     stdout := [] |}.

(** A runtime where H264 opens and the encoder returns its input as it
    is. *)
Definition copying_encoder : Env :=
  {| codec_available := fun c => match c with H264 => true | _ => false end;
     ffmpeg := Some Some |}.

(** The three clips with one 2x2 frame each, of a different grey: 3 for
    the clip of 4 min 21 s, 1 for the clip of 1 min 5 s, 2 for the clip of
    4 min 20 s. *)
Definition ordered_folder : State :=
  {| fs := list_to_map (zip three_clips
             [clip_of 25%float 1 [solid 3 2 2];
              clip_of 25%float 1 [solid 1 2 2];
              clip_of 25%float 1 [solid 2 2 2]]);
     stdout := [] |}.

(** The three clips again, the one of 4 min 20 s with two frames of 3x3
    pixels, the other two with frames of 2x2 pixels. *)
Definition uneven_folder : State :=
  {| fs := list_to_map (zip three_clips
             [clip_of 25%float 2 [solid 3 2 2; solid 4 2 2];
              clip_of 25%float 1 [solid 1 2 2];
              clip_of 25%float 2 [solid 2 3 3; solid 2 3 3]]);
     stdout := [] |}.

(** * Properties *)

(** ** Temporal key parser *)

Lemma span_digits_app s d r :
  span_digits s = (d, r) -> s = (d +:+ r)%string /\ all_digits d = true.
Proof.
  revert d r. induction s as [|c s IH]; intros d r; simpl.
  - intros [= <- <-]. done.
  - destruct (is_digit c) eqn:Hc.
    + destruct (span_digits s) as [d' r'] eqn:Hs. intros [= <- <-].
      destruct (IH d' r' eq_refl) as [-> Hd]. simpl. by rewrite Hc, Hd.
    + intros [= <- <-]. done.
Qed.

Lemma span_digits_stop d c r :
  all_digits d = true -> is_digit c = false ->
  span_digits (d +:+ String c r) = (d, String c r).
Proof.
  intros Hd Hc. induction d as [|a d IH]; simpl in *.
  - by rewrite Hc.
  - apply andb_prop in Hd as [Ha Hd]. by rewrite Ha, (IH Hd).
Qed.

Lemma span_digits_prefix d rest :
  all_digits d = true ->
  exists d' r', span_digits (d +:+ rest) = ((d +:+ d')%string, r').
Proof.
  intros Hd. induction d as [|a d IH]; simpl in *.
  - destruct (span_digits rest) as [d' r'] eqn:E. by exists d', r'.
  - apply andb_prop in Hd as [Ha Hd]. rewrite Ha.
    destruct (IH Hd) as (d' & r' & ->). by exists d', r'.
Qed.

Lemma digits1_sound s d r :
  digits1 s = Some (d, r) -> s = (d +:+ r)%string /\ digit_run d.
Proof.
  unfold digits1. destruct (span_digits s) as [d' r'] eqn:E.
  apply span_digits_app in E as [-> Hd].
  destruct d'; [done|]. intros [= <- <-]. split; [done|]. by split.
Qed.

Lemma digits1_stop d c r :
  digit_run d -> is_digit c = false ->
  digits1 (d +:+ String c r) = Some (d, String c r).
Proof.
  intros [Hne Hd] Hc. unfold digits1. rewrite span_digits_stop by done.
  by destruct d.
Qed.

Lemma digits1_prefix d rest :
  digit_run d -> is_Some (digits1 (d +:+ rest)).
Proof.
  intros [Hne Hd]. unfold digits1.
  destruct (span_digits_prefix d rest Hd) as (d' & r' & ->).
  destruct d; [done|]. simpl. by eexists.
Qed.

Lemma expect_sound c s r : expect c s = Some r -> s = String c r.
Proof.
  destruct s as [|a s]; simpl; [done|].
  destruct (Ascii.eqb a c) eqn:E; [|done].
  apply Ascii.eqb_eq in E as ->. by intros [= ->].
Qed.

(** The scanner finds exactly the matches of the pattern. *)
Lemma re_match_sound s g1 g2 :
  re_match s = Some (g1, g2) -> matches_pattern s g1 g2.
Proof.
  unfold re_match.
  destruct (digits1 s) as [[d1 r1]|] eqn:E1; simpl; [|done].
  destruct (expect "M" r1) as [r2|] eqn:E2; simpl; [|done].
  destruct (digits1 r2) as [[d2 r3]|] eqn:E3; simpl; [|done].
  destruct (expect "S" r3) as [r4|] eqn:E4; simpl; [|done].
  destruct (expect "_" r4) as [r5|] eqn:E5; simpl; [|done].
  destruct (digits1 r5) as [[d3 r6]|] eqn:E6; simpl; [|done].
  intros [= <- <-].
  apply digits1_sound in E1 as [-> H1], E3 as [-> H3], E6 as [-> H6].
  apply expect_sound in E2 as ->, E4 as ->, E5 as ->.
  by exists d3, r6.
Qed.

Lemma re_match_complete s g1 g2 :
  matches_pattern s g1 g2 -> re_match s = Some (g1, g2).
Proof.
  intros (g3 & rest & -> & H1 & H2 & H3). unfold re_match.
  change (g1 +:+ "M" +:+ g2 +:+ "S_" +:+ g3 +:+ rest)%string
    with (g1 +:+ String "M" (g2 +:+ String "S" (String "_" (g3 +:+ rest))))%string.
  rewrite digits1_stop by done. simpl.
  rewrite digits1_stop by done. simpl.
  destruct (digits1_prefix g3 rest H3) as [x ->]. done.
Qed.

Lemma parse_video_time_match s g1 g2 :
  matches_pattern s g1 g2 -> parse_video_time s = (int g1, int g2).
Proof.
  intros H. unfold parse_video_time. by rewrite (re_match_complete _ _ _ H).
Qed.



(** ** The stable sort *)

Section SortedProps.
Context {A K : Type} `{EqDecision K} (leb : K -> K -> bool) (key : A -> K).
Hypothesis leb_refl : forall k, leb k k = true.
Hypothesis leb_total : forall a b, leb a b = false -> leb b a = true.
Hypothesis leb_trans :
  forall a b c, leb a b = true -> leb b c = true -> leb a c = true.

Lemma insert_sorted_perm x l :
  Permutation (insert_sorted leb key x l) (x :: l).
Proof.
  induction l as [|y l IH]; simpl; [done|].
  destruct (leb (key x) (key y)); [done|].
  rewrite IH. apply perm_swap.
Qed.

Lemma sorted_perm l : Permutation (sorted leb key l) l.
Proof.
  induction l as [|x l IH]; simpl; [done|].
  by rewrite insert_sorted_perm, IH.
Qed.

Lemma insert_sorted_ordered x l :
  StronglySorted (fun a b => leb (key a) (key b) = true) l ->
  StronglySorted (fun a b => leb (key a) (key b) = true)
    (insert_sorted leb key x l).
Proof.
  induction 1 as [|y l Hl IH Hy]; simpl.
  - repeat constructor.
  - destruct (leb (key x) (key y)) eqn:E.
    + constructor; [by constructor|].
      constructor; [done|].
      eapply Forall_impl; [exact Hy|]. intros z Hz. simpl in Hz.
      by eapply leb_trans.
    + constructor; [done|].
      rewrite insert_sorted_perm. constructor; [|done].
      by apply leb_total.
Qed.

Lemma sorted_ordered l :
  StronglySorted (fun a b => leb (key a) (key b) = true) (sorted leb key l).
Proof.
  induction l as [|x l IH]; simpl; [constructor|].
  by apply insert_sorted_ordered.
Qed.

Lemma insert_sorted_filter k x l :
  filter (fun a => key a = k) (insert_sorted leb key x l)
  = filter (fun a => key a = k) (x :: l).
Proof.
  induction l as [|y l IH]; simpl; [done|].
  destruct (leb (key x) (key y)) eqn:E; [done|].
  rewrite (filter_cons _ y), IH, !filter_cons.
  destruct (decide (key y = k)) as [Hy|Hy], (decide (key x = k)) as [Hx|Hx];
    try done.
  rewrite Hx, Hy, leb_refl in E. done.
Qed.

Lemma sorted_stable k l :
  filter (fun a => key a = k) (sorted leb key l)
  = filter (fun a => key a = k) l.
Proof.
  induction l as [|x l IH]; simpl; [done|].
  by rewrite insert_sorted_filter, !filter_cons, IH.
Qed.

Lemma sorted_nil_inv l : sorted leb key l = [] -> l = [].
Proof.
  intros H. apply Permutation_nil. rewrite <- H. apply sorted_perm.
Qed.

End SortedProps.

Ltac tuple_order :=
  unfold tuple_leb; simpl;
  rewrite ?orb_true_iff, ?orb_false_iff, ?andb_true_iff, ?andb_false_iff,
    ?Z.ltb_lt, ?Z.ltb_ge, ?Z.eqb_eq, ?Z.eqb_neq, ?Z.leb_le, ?Z.leb_gt;
  try lia.

Lemma tuple_leb_refl k : tuple_leb k k = true.
Proof. destruct k. tuple_order. Qed.

Lemma tuple_leb_total a b : tuple_leb a b = false -> tuple_leb b a = true.
Proof. destruct a, b. tuple_order. Qed.

Lemma tuple_leb_trans a b c :
  tuple_leb a b = true -> tuple_leb b c = true -> tuple_leb a c = true.
Proof. destruct a, b, c. tuple_order. Qed.

(** ** Concatenator *)

Lemma write_fields out f :
  w_isOpened (write out f) = w_isOpened out
  /\ w_path (write out f) = w_path out
  /\ w_fourcc (write out f) = w_fourcc out
  /\ w_fps (write out f) = w_fps out
  /\ w_size (write out f) = w_size out.
Proof.
  unfold write. destruct (w_isOpened out) eqn:Ho; simpl; [|by rewrite Ho].
  destruct (fits _ _); simpl; by rewrite ?Ho.
Qed.

Lemma foldl_write_opened out fr :
  w_isOpened out = true ->
  w_isOpened (foldl write out fr) = true
  /\ w_frames (foldl write out fr)
     = w_frames out ++ filter (fun f => fits (w_size out) f = true) fr.
Proof.
  revert out. induction fr as [|f fr IH]; intros out Ho; simpl.
  - by rewrite app_nil_r.
  - destruct (write_fields out f) as (Hw & _ & _ & _ & Hs).
    destruct (IH (write out f)) as [H1 H2]; [by rewrite Hw|].
    split; [done|]. rewrite H2, Hs. unfold write. rewrite Ho. simpl.
    destruct (fits (w_size out) f) eqn:Hf; simpl.
    + rewrite filter_cons_True by done. by rewrite <- app_assoc.
    + rewrite filter_cons_False; [done|]. by rewrite Hf.
Qed.

Lemma foldl_write_closed out fr :
  w_isOpened out = false -> foldl write out fr = out.
Proof.
  intros Ho. induction fr as [|f fr IH]; simpl; [done|].
  unfold write at 2. by rewrite Ho.
Qed.

Lemma write_clips_fs videos out st :
  fs (write_clips videos out st).2 = fs st.
Proof.
  revert out st. induction videos as [|v videos IH]; intros; simpl; [done|].
  by rewrite IH.
Qed.

Lemma write_clips_stdout videos out st :
  stdout (write_clips videos out st).2
  = stdout st ++ (MsgProcessing <$> videos).
Proof.
  revert out st. induction videos as [|v videos IH]; intros; simpl.
  - by rewrite app_nil_r.
  - rewrite IH. simpl. by rewrite <- app_assoc.
Qed.

Lemma foldl_write_size out fr : w_size (foldl write out fr) = w_size out.
Proof.
  revert out. induction fr as [|f fr IH]; intros out; simpl; [done|].
  rewrite IH. apply write_fields.
Qed.

Lemma write_clips_frames videos out st :
  w_isOpened out = true ->
  w_frames (write_clips videos out st).1
  = w_frames out
    ++ filter (fun f => fits (w_size out) f = true)
         (clip_frames (fs st) videos).
Proof.
  unfold clip_frames.
  revert out st. induction videos as [|v videos IH]; intros out st Ho; simpl.
  - by rewrite app_nil_r.
  - destruct (foldl_write_opened out (read_all (VideoCapture (fs st) v)) Ho)
      as [H1 H2].
    rewrite IH by done. simpl.
    by rewrite H2, foldl_write_size, filter_app, <- app_assoc.
Qed.

Lemma write_clips_closed videos out st :
  w_isOpened out = false -> (write_clips videos out st).1 = out.
Proof.
  revert st. induction videos as [|v videos IH]; intros st Ho; simpl; [done|].
  rewrite foldl_write_closed by done. by apply IH.
Qed.

Lemma processed_app l l' : processed (l ++ l') = processed l ++ processed l'.
Proof. apply omap_app. Qed.

Lemma processed_videos videos : processed (MsgProcessing <$> videos) = videos.
Proof. induction videos as [|v videos IH]; simpl; [done|]. by f_equal. Qed.

Lemma compress_processed env output_path st :
  processed (stdout (compress env output_path st)) = processed (stdout st).
Proof.
  unfold compress, compress_steps.
  destruct (os_rename _ _ _) as [f|e]; simpl.
  - destruct (os_system_ffmpeg _ _ _ _) as [f' z].
    destruct (os_remove _ _) as [f''|e]; simpl;
      by rewrite processed_app, app_nil_r.
  - by rewrite processed_app, app_nil_r.
Qed.

Lemma open_writer_processed env path fps size st :
  processed (stdout (open_writer env path fps size st).2)
  = processed (stdout st).
Proof.
  unfold open_writer. destruct (negb _); simpl; [|done].
  by rewrite processed_app, app_nil_r.
Qed.

Lemma open_writer_fs env path fps size st :
  fs (open_writer env path fps size st).2 = fs st.
Proof. unfold open_writer. by destruct (negb _). Qed.

Lemma concatenate_videos_unfold env v vs output_path st :
  let videos := sorted_videos (v :: vs) in
  let first_video := VideoCapture (fs st) (hd EmptyString videos) in
  isOpened first_video = true ->
  concatenate_videos env (v :: vs) output_path st
  = let size := (CAP_PROP_FRAME_WIDTH first_video,
                 CAP_PROP_FRAME_HEIGHT first_video) in
    let st0 := if os_path_exists (fs st) output_path
               then with_fs (delete output_path (fs st)) st else st in
    let ow := open_writer env output_path (CAP_PROP_FPS first_video) size st0 in
    let wc := write_clips videos ow.1 ow.2 in
    compress env output_path
      (print (MsgConcatDone output_path)
         (with_fs (release wc.1 (fs wc.2)) wc.2)).
Proof.
  intros videos first_video Ho. unfold concatenate_videos.
  fold videos. fold first_video. rewrite Ho. simpl.
  destruct (open_writer _ _ _ _ _) as [out st1]. simpl.
  by destruct (write_clips _ _ _) as [out2 st2].
Qed.

Lemma string_app_empty (s : string) : (s +:+ "")%string = s.
Proof.
  induction s as [|c s IH]; [done|].
  change (String c (s +:+ "") = String c s)%string. by rewrite IH.
Qed.


Lemma temp_path_ne (path : string) : (path +:+ ".temp.mp4")%string <> path.
Proof.
  intros H. rewrite <- (string_app_empty path) in H at 2.
  by apply (inj (String.app path)) in H.
Qed.


(** The second pass on a state that has a file at the output path. *)
Lemma compress_present env output_path st v :
  fs st !! output_path = Some v ->
  fs (compress env output_path st) !! output_path
    = ffmpeg env ≫= (fun encode => encode v)
  /\ fs (compress env output_path st) !! (output_path +:+ ".temp.mp4")%string
     = None
  /\ (forall p, p <> output_path -> p <> (output_path +:+ ".temp.mp4")%string ->
        fs (compress env output_path st) !! p = fs st !! p)
  /\ stdout (compress env output_path st) = stdout st ++ [MsgCompressDone].
Proof.
  intros Hv. pose proof (temp_path_ne output_path) as Hne.
  unfold compress, compress_steps, os_rename, os_system_ffmpeg.
  rewrite Hv. simpl. destruct (ffmpeg env) as [encode|]; simpl.
  - rewrite lookup_insert_eq. simpl. destruct (encode v) as [v'|]; simpl.
    + unfold os_remove. rewrite lookup_insert_ne, lookup_insert_eq by done.
      simpl. split; [|split; [|split]].
      * by rewrite lookup_delete_ne, lookup_insert_eq by done.
      * apply lookup_delete_eq.
      * intros p H1 H2.
        by rewrite lookup_delete_ne, !lookup_insert_ne, lookup_delete_ne.
      * done.
    + unfold os_remove. rewrite lookup_insert_eq. simpl.
      split; [|split; [|split]].
      * rewrite lookup_delete_ne, lookup_insert_ne by done.
        apply lookup_delete_eq.
      * apply lookup_delete_eq.
      * intros p H1 H2.
        by rewrite lookup_delete_ne, lookup_insert_ne, lookup_delete_ne.
      * done.
  - unfold os_remove. rewrite lookup_insert_eq. simpl.
    split; [|split; [|split]].
    + rewrite lookup_delete_ne, lookup_insert_ne by done.
      apply lookup_delete_eq.
    + apply lookup_delete_eq.
    + intros p H1 H2.
      by rewrite lookup_delete_ne, lookup_insert_ne, lookup_delete_ne.
    + done.
Qed.


Lemma foldl_write_fields out fr :
  w_path (foldl write out fr) = w_path out
  /\ w_fourcc (foldl write out fr) = w_fourcc out
  /\ w_fps (foldl write out fr) = w_fps out
  /\ w_size (foldl write out fr) = w_size out.
Proof.
  revert out. induction fr as [|f fr IH]; intros out; simpl; [done|].
  destruct (IH (write out f)) as (-> & -> & -> & ->).
  by destruct (write_fields out f) as (_ & -> & -> & -> & ->).
Qed.


Lemma write_clips_fields videos out st :
  w_path (write_clips videos out st).1 = w_path out
  /\ w_fourcc (write_clips videos out st).1 = w_fourcc out
  /\ w_fps (write_clips videos out st).1 = w_fps out
  /\ w_size (write_clips videos out st).1 = w_size out.
Proof.
  revert out st. induction videos as [|v videos IH]; intros out st; simpl.
  - done.
  - destruct (IH (foldl write out (read_all (VideoCapture (fs st) v)))
                (print (MsgProcessing v) st)) as (-> & -> & -> & ->).
    apply foldl_write_fields.
Qed.


Lemma write_clips_opened videos out st :
  w_isOpened out = true -> w_isOpened (write_clips videos out st).1 = true.
Proof.
  revert out st. induction videos as [|v videos IH]; intros out st Ho; simpl.
  - done.
  - apply IH. by apply foldl_write_opened.
Qed.




Lemma open_writer_codec env path fps size st :
  (open_writer env path fps size st).1
  = new_writer env path (if codec_available env H264 then H264 else mp4v)
      fps size.
Proof. unfold open_writer. simpl. by destruct (codec_available env H264). Qed.


(** The file the first pass leaves at the output path. *)
Lemma first_pass_written env v vs output_path st :
  let videos := sorted_videos (v :: vs) in
  let first_video := VideoCapture (fs st) (hd EmptyString videos) in
  let st0 := if os_path_exists (fs st) output_path
             then with_fs (delete output_path (fs st)) st else st in
  let ow := open_writer env output_path (CAP_PROP_FPS first_video)
              (CAP_PROP_FRAME_WIDTH first_video,
               CAP_PROP_FRAME_HEIGHT first_video) st0 in
  codec_available env H264 || codec_available env mp4v = true ->
  w_isOpened (write_clips videos ow.1 ow.2).1 = true
  /\ w_path (write_clips videos ow.1 ow.2).1 = output_path
  /\ written_file (write_clips videos ow.1 ow.2).1
     = first_pass_file env (v :: vs) output_path st.
Proof.
  intros videos first_video st0 ow Hcodec.
  assert (Hfs : fs st0 = delete output_path (fs st)).
  { unfold st0, os_path_exists. case_bool_decide as Hex; simpl; [done|].
    symmetry. apply delete_id. by apply eq_None_not_Some. }
  assert (How : ow.1 = new_writer env output_path
                         (if codec_available env H264 then H264 else mp4v)
                         (CAP_PROP_FPS first_video)
                         (CAP_PROP_FRAME_WIDTH first_video,
                          CAP_PROP_FRAME_HEIGHT first_video))
    by apply open_writer_codec.
  assert (Hopen : w_isOpened ow.1 = true).
  { rewrite How. simpl. destruct (codec_available env H264) eqn:E; [done|].
    by rewrite orb_false_l in Hcodec. }
  destruct (write_clips_fields videos ow.1 ow.2) as (Hp & Hc & Hf & Hs).
  split; [by apply write_clips_opened|]. split.
  - by rewrite Hp, How.
  - unfold written_file, first_pass_file. fold videos. fold first_video.
    assert (Hfs2 : fs ow.2 = delete output_path (fs st)).
    { unfold ow. by rewrite open_writer_fs. }
    rewrite Hc, Hf, Hs, write_clips_frames by done.
    rewrite !Hfs2, How. simpl. done.
Qed.

Lemma filter_Forall_id {A} (P : A -> Prop) `{forall x, Decision (P x)}
    (l : list A) :
  Forall P l -> filter P l = l.
Proof.
  induction 1 as [|x l Hx Hl IH]; [done|].
  rewrite filter_cons_True by done. by rewrite IH.
Qed.

(** The state the first pass hands to the second: the output path holds
    the file the writer left. *)
Lemma first_pass_state env v vs output_path st :
  let videos := sorted_videos (v :: vs) in
  let first_video := VideoCapture (fs st) (hd EmptyString videos) in
  isOpened first_video = true ->
  codec_available env H264 || codec_available env mp4v = true ->
  exists S,
    concatenate_videos env (v :: vs) output_path st
    = compress env output_path S
    /\ fs S !! output_path
       = Some (first_pass_file env (v :: vs) output_path st)
    /\ exists log, stdout S = log ++ [MsgConcatDone output_path].
Proof.
  intros videos first_video Ho Hcodec.
  rewrite concatenate_videos_unfold by done. cbv zeta.
  destruct (first_pass_written env v vs output_path st Hcodec)
    as (Hopen & Hpath & Hfile).
  cbv zeta in Hopen, Hpath, Hfile.
  set (wc := write_clips _ _ _) in *.
  exists (print (MsgConcatDone output_path)
            (with_fs (release wc.1 (fs wc.2)) wc.2)).
  split; [done|]. split.
  - unfold release. simpl. rewrite Hopen, Hpath, <- Hfile.
    apply lookup_insert_eq.
  - by exists (stdout wc.2).
Qed.

(** C7: the clips are written in ascending order of their (minutes,
    seconds) key by a stable sort: the order is a permutation of the input,
    ascending in the key, and keeps the input order among clips of one
    key (unparsable names all have key (0, 0)); [concatenate_videos]
    processes the clips in that order and, when a writer opens, the file
    its first pass leaves at the output path, which the second pass then
    hands to the encoder, holds the frames of the clips in that order
    (those that have the size the first clip reports; all of them when
    every frame has that size); keys (4,21), (1,05), (4,20) come out as
    (1,05), (4,20), (4,21). *)
Theorem concatenation_order :
  (forall video_files,
     Permutation (sorted_videos video_files) video_files
     /\ StronglySorted
          (fun a b => tuple_leb (temporal_key a) (temporal_key b) = true)
          (sorted_videos video_files)
     /\ forall k,
          filter (fun p => temporal_key p = k) (sorted_videos video_files)
          = filter (fun p => temporal_key p = k) video_files)
  /\ (forall env video_files output_path st,
        video_files <> [] ->
        isOpened (VideoCapture (fs st)
                    (hd EmptyString (sorted_videos video_files))) = true ->
        processed (stdout (concatenate_videos env video_files output_path st))
        = processed (stdout st) ++ sorted_videos video_files)
  /\ (forall env video_files output_path st,
        video_files <> [] ->
        isOpened (VideoCapture (fs st)
                    (hd EmptyString (sorted_videos video_files))) = true ->
        codec_available env H264 || codec_available env mp4v = true ->
        let first_video :=
          VideoCapture (fs st) (hd EmptyString (sorted_videos video_files)) in
        let size := (CAP_PROP_FRAME_WIDTH first_video,
                     CAP_PROP_FRAME_HEIGHT first_video) in
        let read :=
          clip_frames (delete output_path (fs st))
            (sorted_videos video_files) in
        exists written,
          (exists S,
             concatenate_videos env video_files output_path st
             = compress env output_path S
             /\ fs S !! output_path = Some written)
          /\ fs (concatenate_videos env video_files output_path st)
               !! output_path
             = ffmpeg env ≫= (fun encode => encode written)
          /\ frames written = filter (fun f => fits size f = true) read
          /\ (Forall (fun f => fits size f = true) read ->
              frames written = read))
  /\ temporal_key <$> three_clips = [(4, 21); (1, 5); (4, 20)]
  /\ temporal_key <$> sorted_videos three_clips = [(1, 5); (4, 20); (4, 21)].
Proof.
  split; [|split; [|split; [|split]]].
  - intros video_files. unfold sorted_videos. split; [|split].
    + apply sorted_perm.
    + apply sorted_ordered.
      * apply tuple_leb_total.
      * apply tuple_leb_trans.
    + intros k. apply sorted_stable, tuple_leb_refl.
  - intros env [|v vs] output_path st Hne Ho; [done|].
    rewrite concatenate_videos_unfold by done. cbv zeta.
    rewrite compress_processed. simpl.
    rewrite processed_app, app_nil_r, write_clips_stdout, processed_app.
    rewrite open_writer_processed, processed_videos.
    by destruct (os_path_exists _ _).
  - intros env [|v vs] output_path st Hne Ho Hcodec; [done|]. cbv zeta.
    destruct (first_pass_state env v vs output_path st Ho Hcodec)
      as (S & HS & Hv & _).
    exists (first_pass_file env (v :: vs) output_path st).
    split; [by exists S|]. split; [|split].
    + rewrite HS. by apply compress_present.
    + done.
    + intros Hall. simpl. by apply filter_Forall_id.
  - reflexivity.
  - reflexivity.
Qed.

Lemma concatenation_order_witness :
  three_clips <> []
  /\ isOpened (VideoCapture (fs ordered_folder)
                 (hd EmptyString (sorted_videos three_clips))) = true
  /\ codec_available copying_encoder H264
     || codec_available copying_encoder mp4v = true
  /\ processed (stdout (concatenate_videos copying_encoder three_clips
                          output_file ordered_folder))
     = processed (stdout ordered_folder) ++ sorted_videos three_clips
  /\ frames <$> (fs (concatenate_videos copying_encoder three_clips
                       output_file ordered_folder) !! output_file)
     = Some [solid 1 2 2; solid 2 2 2; solid 3 2 2].
Proof.
  assert (H1 : three_clips <> []) by done.
  assert (H2 : isOpened (VideoCapture (fs ordered_folder)
                 (hd EmptyString (sorted_videos three_clips))) = true)
    by (vm_compute; reflexivity).
  assert (H3 : codec_available copying_encoder H264
               || codec_available copying_encoder mp4v = true)
    by reflexivity.
  split; [exact H1|]. split; [exact H2|]. split; [exact H3|]. split.
  - exact (proj1 (proj2 concatenation_order) copying_encoder three_clips
             output_file ordered_folder H1 H2).
  - destruct (proj1 (proj2 (proj2 concatenation_order)) copying_encoder
                three_clips output_file ordered_folder H1 H2 H3)
      as (written & _ & Hout & _ & Hall).
    rewrite Hout. simpl. f_equal. rewrite Hall; [reflexivity|].
    vm_compute. repeat constructor.
Defined.

(** ** Folder orchestrator *)

Section OrchestratorProps.
Context {cv : OpenCV}.

(** The loop over the folder never creates a file. *)
Lemma process_files_creates_nothing files threshold tb ratio_threshold
    kept st kept' st' :
  process_files files threshold tb ratio_threshold kept st = Ok (kept', st') ->
  forall p, fs st !! p = None -> fs st' !! p = None.
Proof.
  revert kept st.
  induction files as [|f files IH]; intros kept st; simpl.
  - by intros [= <- <-].
  - destruct (is_video f); [|by apply IH].
    destruct (check_video_motion _ _ _ _) as [[|]|e]; simpl; [| |done].
    + intros H p Hp. by apply (IH _ _ H).
    + intros H p Hp. apply (IH _ _ H).
      destruct (os_path_exists _ _); simpl; [|done].
      destruct (decide (f = p)) as [->|Hne].
      * apply lookup_delete_eq.
      * by rewrite lookup_delete_ne.
Qed.

(** C8: with no clip to concatenate, [concatenate_videos] prints its
    notice and returns, leaving the file system as it was; when the folder
    pass keeps no clip, [process_video_folder] does not call it at all: it
    returns the state the pass ended in, and no path that held no file
    holds one afterwards. *)
Theorem empty_concatenation :
  (forall env output_path st,
     concatenate_videos env [] output_path st = print MsgNoVideos st
     /\ fs (concatenate_videos env [] output_path st) = fs st)
  /\ (forall env folder_path files threshold concat tb ratio_threshold st st',
        process_files files threshold tb ratio_threshold [] st = Ok ([], st') ->
        process_video_folder env folder_path files threshold concat tb
          ratio_threshold st = Ok st'
        /\ forall p, fs st !! p = None -> fs st' !! p = None).
Proof.
  split.
  - by intros env output_path st.
  - intros env folder_path files threshold concat tb ratio_threshold st st' H.
    split.
    + unfold process_video_folder. rewrite H. simpl.
      by rewrite andb_false_r.
    + by eapply process_files_creates_nothing.
Qed.

End OrchestratorProps.

Lemma empty_concatenation_witness :
  @process_files reference [first_clip] default_threshold default_time_box
    default_ratio_threshold [] static_folder
  = Ok ([], {| fs := ∅;
               stdout := [MsgProcessing first_clip; MsgDelete first_clip] |})
  /\ @process_video_folder reference no_encoder "/v" [first_clip] default_threshold true
       default_time_box default_ratio_threshold static_folder
     = Ok {| fs := ∅;
             stdout := [MsgProcessing first_clip; MsgDelete first_clip] |}.
Proof.
  assert (H : @process_files reference [first_clip] default_threshold default_time_box
                default_ratio_threshold [] static_folder
              = Ok ([], {| fs := ∅;
                           stdout := [MsgProcessing first_clip;
                                      MsgDelete first_clip] |}))
    by (vm_compute; reflexivity).
  split; [exact H|].
  exact (proj1 (proj2 (@empty_concatenation reference) no_encoder "/v"%string
           [first_clip] default_threshold true default_time_box
           default_ratio_threshold static_folder _ H)).
Defined.

(** ** Writer fallback and the second pass *)

Lemma open_writer_fallback env path fps size st :
  codec_available env H264 = false ->
  (open_writer env path fps size st).1 = new_writer env path mp4v fps size.
Proof. intros H. unfold open_writer. simpl. by rewrite H. Qed.

Lemma compress_absent env output_path st :
  fs st !! output_path = None ->
  compress env output_path st = print (MsgCompressFailed FileNotFoundError) st.
Proof.
  intros H. unfold compress, compress_steps, os_rename. by rewrite H.
Qed.

(** What the call does when neither writer opens and the first clip can be
    read. *)
Lemma concatenate_no_writer env v vs output_path st :
  codec_available env H264 = false ->
  codec_available env mp4v = false ->
  isOpened (VideoCapture (fs st)
              (hd EmptyString (sorted_videos (v :: vs)))) = true ->
  concatenate_videos env (v :: vs) output_path st
  = {| fs := delete output_path (fs st);
       stdout := stdout st
                 ++ MsgWriterFallback
                    :: (MsgProcessing <$> sorted_videos (v :: vs))
                 ++ [MsgConcatDone output_path;
                     MsgCompressFailed FileNotFoundError] |}.
Proof.
  intros H1 H2 Ho. rewrite concatenate_videos_unfold by done. cbv zeta.
  set (st0 := if os_path_exists (fs st) output_path
              then with_fs (delete output_path (fs st)) st else st).
  assert (Hfs : fs st0 = delete output_path (fs st)).
  { unfold st0, os_path_exists. case_bool_decide as Hex; simpl; [done|].
    symmetry. apply delete_id. by apply eq_None_not_Some. }
  assert (Hout : stdout st0 = stdout st).
  { unfold st0. by destruct (os_path_exists _ _). }
  set (ow := open_writer env output_path _ _ st0).
  assert (Hw : w_isOpened ow.1 = false).
  { unfold ow. by rewrite open_writer_fallback. }
  assert (Hows : ow.2 = print MsgWriterFallback st0).
  { unfold ow, open_writer. simpl. by rewrite H1. }
  rewrite write_clips_closed by done.
  rewrite compress_absent.
  - unfold print, with_fs, release. rewrite Hw. simpl.
    rewrite write_clips_fs, write_clips_stdout, Hows. simpl.
    rewrite Hfs, Hout. f_equal.
    rewrite <- !app_assoc. done.
  - unfold release. rewrite Hw. simpl.
    rewrite write_clips_fs, Hows. simpl. rewrite Hfs.
    apply lookup_delete_eq.
Qed.

Lemma concatenate_no_writer_fs env video_files output_path st :
  codec_available env H264 = false ->
  codec_available env mp4v = false ->
  fs (concatenate_videos env video_files output_path st) = fs st
  \/ fs (concatenate_videos env video_files output_path st)
     = delete output_path (fs st).
Proof.
  intros H1 H2. destruct video_files as [|v vs]; [by left|].
  destruct (isOpened (VideoCapture (fs st)
              (hd EmptyString (sorted_videos (v :: vs))))) eqn:Ho.
  - right. by rewrite concatenate_no_writer.
  - left. unfold concatenate_videos. by rewrite Ho.
Qed.

(** C3, as amended: when the H264 writer does not open, the writer used
    is an mp4v writer for the same path, frame rate and frame size; when
    that one does not open either, the call does not stop: it still reads
    every clip, prints its completion line and attempts the second pass,
    which fails on the missing file and is reported; every frame handed to
    the unopened writer is dropped, so no frame is written and no file is
    created, and every file other than the output path is as it was: what
    the folder pass kept stays, what it deleted stays deleted. *)
Theorem writer_fallback :
  (forall env path fps size st,
     codec_available env H264 = false ->
     (open_writer env path fps size st).1 = new_writer env path mp4v fps size
     /\ w_fps (open_writer env path fps size st).1 = fps
     /\ w_size (open_writer env path fps size st).1 = size
     /\ w_fourcc (open_writer env path fps size st).1 = mp4v)
  /\ (forall env video_files output_path fps size st,
        codec_available env H264 = false ->
        codec_available env mp4v = false ->
        let out := (open_writer env output_path fps size st).1 in
        w_isOpened out = false
        /\ w_frames (write_clips video_files out st).1 = []
        /\ (forall p, p <> output_path ->
              fs (concatenate_videos env video_files output_path st) !! p
              = fs st !! p)
        /\ (forall p, fs st !! p = None ->
              fs (concatenate_videos env video_files output_path st) !! p
              = None))
  /\ (forall env video_files output_path st,
        codec_available env H264 = false ->
        codec_available env mp4v = false ->
        video_files <> [] ->
        isOpened (VideoCapture (fs st)
                    (hd EmptyString (sorted_videos video_files))) = true ->
        concatenate_videos env video_files output_path st
        = {| fs := delete output_path (fs st);
             stdout := stdout st
                       ++ MsgWriterFallback
                          :: (MsgProcessing <$> sorted_videos video_files)
                       ++ [MsgConcatDone output_path;
                           MsgCompressFailed FileNotFoundError] |}).
Proof.
  split; [|split].
  - intros env path fps size st H. by rewrite open_writer_fallback.
  - intros env video_files output_path fps size st H1 H2. cbv zeta.
    rewrite open_writer_fallback by done.
    split; [done|]. split; [by rewrite write_clips_closed|].
    destruct (concatenate_no_writer_fs env video_files output_path st H1 H2)
      as [-> | ->].
    + done.
    + split.
      * intros p Hp. by rewrite lookup_delete_ne.
      * intros p Hp. rewrite lookup_delete. by case_decide.
  - intros env [|v vs] output_path st H1 H2 Hne Ho; [done|].
    by apply concatenate_no_writer.
Qed.

Lemma writer_fallback_witness :
  codec_available no_codec H264 = false
  /\ codec_available no_codec mp4v = false
  /\ three_clips <> []
  /\ isOpened (VideoCapture (fs three_clip_folder)
                 (hd EmptyString (sorted_videos three_clips))) = true
  /\ fs (concatenate_videos no_codec three_clips output_file
           three_clip_folder) !! output_file = None
  /\ stdout (concatenate_videos no_codec three_clips output_file
               three_clip_folder)
     = MsgWriterFallback :: (MsgProcessing <$> sorted_videos three_clips)
       ++ [MsgConcatDone output_file; MsgCompressFailed FileNotFoundError].
Proof.
  assert (H1 : codec_available no_codec H264 = false) by reflexivity.
  assert (H2 : codec_available no_codec mp4v = false) by reflexivity.
  assert (H3 : fs three_clip_folder !! output_file = None)
    by (vm_compute; reflexivity).
  assert (H4 : three_clips <> []) by done.
  assert (H5 : isOpened (VideoCapture (fs three_clip_folder)
                 (hd EmptyString (sorted_videos three_clips))) = true)
    by (vm_compute; reflexivity).
  split; [exact H1|]. split; [exact H2|]. split; [exact H4|].
  split; [exact H5|]. split.
  - exact (proj2 (proj2 (proj2 (proj1 (proj2 writer_fallback) no_codec
             three_clips output_file 25%float (2, 2) three_clip_folder
             H1 H2))) output_file H3).
  - rewrite (proj2 (proj2 writer_fallback) no_codec three_clips output_file
               three_clip_folder H1 H2 H4 H5).
    reflexivity.
Defined.

(** C3, as stated, fails: with no codec available and three readable
    clips the call goes on after the fallback notice, through every clip,
    to its completion line and the second pass. *)
Lemma writer_failure_not_aborted :
  ~ aborts_without_writer no_codec three_clips output_file three_clip_folder.
Proof.
  unfold aborts_without_writer. intros H. specialize (H eq_refl eq_refl).
  vm_compute in H. discriminate H.
Qed.

(** C1 (the code departs from it): with a clip concatenated and the
    external encoder missing, or present and exiting with an error,
    [os.system] raises nothing; the first-pass file, renamed to the
    temporary name, is then removed, the output path is left without a
    file, and the log reports the second pass as done. *)
Theorem second_pass_loses_output :
  let lost (env : Env) :=
    let st' := concatenate_videos env [first_clip] output_file
                 one_clip_folder in
    fs st' !! output_file = None
    /\ fs st' !! (output_file +:+ ".temp.mp4")%string = None
    /\ stdout st' = [MsgProcessing first_clip; MsgConcatDone output_file;
                     MsgCompressDone] in
  lost no_encoder /\ lost failing_encoder
  /\ frames <$> (fs (with_fs (release
         (write_clips [first_clip]
            (open_writer no_encoder output_file 25%float (2, 2)
               one_clip_folder).1 one_clip_folder).1
         (fs one_clip_folder)) one_clip_folder) !! output_file)
     = Some (frames three_frames).
Proof. vm_compute. repeat split; reflexivity. Qed.

(** ** Floating-point comparisons *)

Lemma SFcompare_le_lt_trans a b c :
  SFleb a b = true -> SFltb b c = true -> SFltb a c = true.
Proof.
  unfold SFleb, SFltb, SFcompare.
  destruct a as [sa|sa| |sa ma ea], b as [sb|sb| |sb mb eb],
           c as [sc|sc| |sc mc ec];
    try destruct sa; try destruct sb; try destruct sc;
    try discriminate; try reflexivity;
    repeat match goal with
    | |- context [Z.compare ?x ?y] => destruct (Z.compare_spec x y)
    | |- context [PosDef.Pos.compare_cont Eq ?x ?y] =>
        change (PosDef.Pos.compare_cont Eq x y) with (Pos.compare x y);
        destruct (Pos.compare_spec x y)
    end; simpl; intros Hab Hbc; try discriminate; try reflexivity;
    exfalso; subst; lia.
Qed.

(** A value above a threshold is above every lower threshold. *)
Lemma float_above_lower (r r' x : float) :
  PrimFloat.leb r' r = true -> PrimFloat.ltb r x = true ->
  PrimFloat.ltb r' x = true.
Proof.
  rewrite FloatAxioms.leb_spec, !FloatAxioms.ltb_spec.
  apply SFcompare_le_lt_trans.
Qed.

(** ** Motion classifier *)

Section ClassifierProps.
Context {cv : OpenCV}.

Lemma sampling_loop_mono threshold threshold' ratio_threshold ratio_threshold'
    tb check_interval total_pixels rest l r :
  threshold' <= threshold ->
  PrimFloat.leb ratio_threshold' ratio_threshold = true ->
  sampling_loop threshold tb ratio_threshold check_interval total_pixels
    rest l = Ok r ->
  has_motion r = true ->
  exists r',
    sampling_loop threshold' tb ratio_threshold' check_interval total_pixels
      rest l = Ok r'
    /\ has_motion r' = true.
Proof.
  intros HT HR. revert l.
  induction rest as [|frame rest IH]; intros l; simpl.
  - intros [= ->] Hm. by exists r.
  - destruct (negb _); [apply IH|].
    destruct (compare_frames _ _ _ _) as [[[frame_gray diff_count] diff_ratio]|e];
      simpl; [|done].
    destruct ((threshold' <? diff_count)
              && PrimFloat.ltb ratio_threshold' diff_ratio) eqn:E'.
    + intros _ _. by eexists.
    + destruct ((threshold <? diff_count)
                && PrimFloat.ltb ratio_threshold diff_ratio) eqn:E.
      * exfalso. apply andb_prop in E as [E1 E2].
        apply Z.ltb_lt in E1.
        apply (float_above_lower _ ratio_threshold') in E2; [|done].
        rewrite E2, andb_true_r in E'. apply Z.ltb_ge in E'. lia.
      * apply IH.
Qed.

(** C5: classification is monotonic in both thresholds: a clip classified
    as moving with the pixel-count threshold T and the ratio threshold R is
    classified as moving with every T' <= T and R' <= R, so lowering a
    threshold never turns a verdict of motion into one of no motion. *)
Theorem check_video_motion_monotonic cap tb
    (threshold threshold' : Z) (ratio_threshold ratio_threshold' : float) :
  threshold' <= threshold ->
  PrimFloat.leb ratio_threshold' ratio_threshold = true ->
  check_video_motion cap threshold tb ratio_threshold = Ok true ->
  check_video_motion cap threshold' tb ratio_threshold' = Ok true.
Proof.
  intros HT HR. unfold check_video_motion.
  destruct (negb (isOpened cap)); [done|].
  destruct (frames cap) as [|prev_frame rest]; [done|].
  unfold scan_frames. destruct (float_div _ _) as [d|e]; simpl; [|done].
  destruct (sampling_loop threshold _ _ _ _ _ _) as [r|e] eqn:E; simpl; [|done].
  intros [= Hm].
  destruct (sampling_loop_mono _ _ _ _ _ _ _ _ _ _ HT HR E Hm) as (r' & -> & Hr').
  simpl. by rewrite Hr'.
Qed.

(** C4: a clip that does not open, or opens and yields no frame, is
    classified as moving; in the folder pass such a clip is kept (added to
    the survivors, its file untouched) and the pass goes on with the next
    file. *)
Theorem unreadable_clip_retained :
  (forall cap threshold tb ratio_threshold,
     isOpened cap = false \/ frames cap = [] ->
     check_video_motion cap threshold tb ratio_threshold = Ok true)
  /\ (forall video_file files threshold tb ratio_threshold kept st,
        is_video video_file = true ->
        isOpened (VideoCapture (fs st) video_file) = false
        \/ frames (VideoCapture (fs st) video_file) = [] ->
        process_files (video_file :: files) threshold tb ratio_threshold
          kept st
        = process_files files threshold tb ratio_threshold
            (kept ++ [video_file])
            (print (MsgKeep video_file)
               (print (MsgProcessing video_file) st))).
Proof.
  assert (H : forall cap threshold tb ratio_threshold,
            isOpened cap = false \/ frames cap = [] ->
            check_video_motion cap threshold tb ratio_threshold = Ok true).
  { intros cap threshold tb ratio_threshold [Ho|Hf]; unfold check_video_motion.
    - by rewrite Ho.
    - rewrite Hf. by destruct (negb _). }
  split; [exact H|].
  intros video_file files threshold tb ratio_threshold kept st Hv Hcap.
  simpl. rewrite Hv. by rewrite H.
Qed.

End ClassifierProps.

Lemma check_video_motion_monotonic_witness :
  1 <= 2
  /\ PrimFloat.leb 10%float 50%float = true
  /\ @check_video_motion reference three_frames 2 small_box 50%float = Ok true
  /\ @check_video_motion reference three_frames 1 small_box 10%float = Ok true.
Proof.
  assert (H1 : 1 <= 2) by lia.
  assert (H2 : PrimFloat.leb 10%float 50%float = true) by reflexivity.
  assert (H3 : @check_video_motion reference three_frames 2 small_box
                 50%float = Ok true) by (vm_compute; reflexivity).
  split; [exact H1|]. split; [exact H2|]. split; [exact H3|].
  exact (@check_video_motion_monotonic reference three_frames small_box
           2 1 50%float 10%float H1 H2 H3).
Defined.

Lemma unreadable_clip_retained_witness :
  is_video first_clip = true
  /\ frames (VideoCapture (fs broken_folder) first_clip) = []
  /\ @process_files reference [first_clip] default_threshold default_time_box
       default_ratio_threshold [] broken_folder
     = Ok ([first_clip],
           {| fs := fs broken_folder;
              stdout := [MsgProcessing first_clip; MsgKeep first_clip] |}).
Proof.
  assert (H1 : is_video first_clip = true) by (vm_compute; reflexivity).
  assert (H2 : frames (VideoCapture (fs broken_folder) first_clip) = [])
    by (vm_compute; reflexivity).
  split; [exact H1|]. split; [exact H2|].
  rewrite (proj2 (@unreadable_clip_retained reference) first_clip []
             default_threshold default_time_box default_ratio_threshold []
             broken_folder H1 (or_intror H2)).
  reflexivity.
Defined.

(** ** Frame differencing *)

Lemma absdiff_self g :
  absdiff g g = Ok ((fun row : list Z => (fun _ => 0) <$> row) <$> g).
Proof.
  unfold absdiff. rewrite !Z.eqb_refl. simpl. f_equal.
  rewrite zip_with_diag. apply list_fmap_ext. intros _ row _.
  rewrite zip_with_diag. apply list_fmap_ext. intros _ v _.
  by rewrite Z.sub_diag.
Qed.

Lemma zero_image_const {A} (g : image A) :
  Forall (Forall (fun v => v = 0))
    ((fun row : list A => (fun _ => 0) <$> row) <$> g).
Proof.
  apply Forall_fmap, Forall_true. intros row. simpl.
  by apply Forall_fmap, Forall_true.
Qed.

Lemma threshold_zero_image g t maxval :
  0 <= t ->
  Forall (Forall (fun v => v = 0)) g ->
  Forall (Forall (fun v => v = 0)) (threshold g t maxval).
Proof.
  intros Ht Hg. unfold threshold. apply Forall_fmap.
  eapply Forall_impl; [exact Hg|]. intros row Hrow. simpl.
  apply Forall_fmap. eapply Forall_impl; [exact Hrow|].
  intros v ->. simpl. destruct (t <? 0) eqn:E; [|done].
  apply Z.ltb_lt in E. lia.
Qed.

Lemma pixel_at_zero_image g y x v :
  Forall (Forall (fun v => v = 0)) g -> pixel_at g y x = Some v -> v = 0.
Proof.
  intros Hg. unfold pixel_at. destruct (_ && _); [|done].
  destruct (g !! Z.to_nat y) as [row|] eqn:Hrow; simpl; [|done].
  intros Hv. rewrite Forall_lookup in Hg.
  specialize (Hg _ _ Hrow). rewrite Forall_lookup in Hg. by eapply Hg.
Qed.

Lemma max_of_zeros {D} (f : D -> option Z) (l : list D) :
  (forall d v, f d = Some v -> v = 0) -> foldr Z.max 0 (omap f l) = 0.
Proof.
  intros Hf. induction l as [|d l IH]; [done|].
  change (omap f (d :: l))
    with (match f d with Some v => v :: omap f l | None => omap f l end).
  destruct (f d) as [v|] eqn:E; [|done].
  change (Z.max v (foldr Z.max 0 (omap f l)) = 0).
  by rewrite IH, (Hf _ _ E).
Qed.

Lemma dilate_once_zero_image g :
  Forall (Forall (fun v => v = 0)) g ->
  Forall (Forall (fun v => v = 0)) (dilate_once g).
Proof.
  intros Hg. unfold dilate_once. apply Forall_lookup. intros y row.
  rewrite list_lookup_imap. intros Hrow.
  apply fmap_Some in Hrow as (r & Hr & ->).
  apply Forall_lookup. intros x v. rewrite list_lookup_imap. intros Hv.
  apply fmap_Some in Hv as (u & Hu & ->).
  assert (u = 0) as ->.
  { pose proof Hg as Hrows. rewrite Forall_lookup in Hrows.
    specialize (Hrows _ _ Hr). rewrite Forall_lookup in Hrows.
    by eapply Hrows. }
  apply max_of_zeros. intros d w. by apply pixel_at_zero_image.
Qed.

Lemma dilate_zero_image g n :
  Forall (Forall (fun v => v = 0)) g ->
  Forall (Forall (fun v => v = 0)) (dilate g n).
Proof.
  revert g. induction n as [|n IH]; intros g Hg; simpl; [done|].
  by apply IH, dilate_once_zero_image.
Qed.

Lemma count_nonzero_zero_image g :
  Forall (Forall (fun v => v = 0)) g -> count_nonzero g = 0.
Proof.
  induction 1 as [|row g Hrow Hg IH]; simpl; [done|].
  rewrite IH.
  assert (filter (fun v : Z => v <> 0) row = []) as ->; [|done].
  induction Hrow as [|v row Hv Hrow IHrow]; [done|].
  rewrite filter_cons, IHrow. by destruct (decide (v <> 0)).
Qed.

(** Two equal prepared frames have no changed pixel. *)
Lemma changed_pixels_self g :
  exists thresh,
    changed_pixels g g = Ok thresh /\ count_nonzero thresh = 0.
Proof.
  unfold changed_pixels. rewrite absdiff_self. simpl. eexists. split; [done|].
  apply count_nonzero_zero_image, (dilate_zero_image _ 2), threshold_zero_image;
    [lia|]. apply zero_image_const.
Qed.

Section DifferenceProps.
Context {cv : OpenCV}.

Lemma prepare_masked tb a b :
  fill_box black tb a = fill_box black tb b -> prepare tb a = prepare tb b.
Proof. unfold prepare. by intros ->. Qed.

(** C9, as amended: two frames that are equal once the mask region is
    zeroed have no changed pixel, so pixelCount = 0; when the mask leaves
    at least one comparable pixel (the denominator is positive) the ratio
    is 0.0, and when the mask area exceeds the frame area (the denominator
    is negative) it is -0.0; when the denominator is zero there is no such
    ratio: with a count that is a Python int the division raises, with a
    count that is a NumPy integer the ratio is NaN. *)
Theorem equal_frames_no_difference tb total_pixels (a b : image Pixel) :
  fill_box black tb a = fill_box black tb b ->
  (exists thresh,
     changed_pixels (prepare tb b) (prepare tb a) = Ok thresh
     /\ count_nonzero thresh = 0)
  /\ (0 < total_pixels ->
      compare_frames tb total_pixels (prepare tb a) b
      = Ok (prepare tb b, 0, 0%float))
  /\ (total_pixels < 0 ->
      compare_frames tb total_pixels (prepare tb a) b
      = Ok (prepare tb b, 0, (-0)%float))
  /\ (total_pixels = 0 ->
      compare_frames tb total_pixels (prepare tb a) b
      = if count_nonzero_int64 then Ok (prepare tb b, 0, nan)
        else Raise ZeroDivisionError).
Proof.
  intros Heq. rewrite (prepare_masked _ _ _ Heq).
  destruct (changed_pixels_self (prepare tb b)) as (thresh & Hc & Hn).
  split; [by exists thresh|]. unfold compare_frames. rewrite Hc. simpl.
  rewrite Hn. unfold count_div, numpy_true_div, int_true_div.
  split; [|split].
  - intros Hpos.
    destruct (total_pixels =? 0) eqn:E1; [apply Z.eqb_eq in E1; lia|].
    destruct (total_pixels <? 0) eqn:E2; [apply Z.ltb_lt in E2; lia|].
    by destruct count_nonzero_int64.
  - intros Hneg.
    destruct (total_pixels =? 0) eqn:E1; [apply Z.eqb_eq in E1; lia|].
    destruct (total_pixels <? 0) eqn:E2; [|apply Z.ltb_ge in E2; lia].
    by destruct count_nonzero_int64.
  - intros ->. by destruct count_nonzero_int64.
Qed.

End DifferenceProps.

Lemma equal_frames_no_difference_witness :
  frame_a <> frame_b
  /\ fill_box black small_box frame_a = fill_box black small_box frame_b
  /\ total_pixels_of small_box (@prepare reference small_box frame_a) = 3
  /\ @compare_frames reference small_box 3
       (@prepare reference small_box frame_a) frame_b
     = Ok (@prepare reference small_box frame_b, 0, 0%float)
  /\ fill_box black corner_box frame_a = fill_box black corner_box frame_b
  /\ total_pixels_of corner_box (@prepare reference corner_box frame_a) = 0
  /\ @compare_frames reference corner_box 0
       (@prepare reference corner_box frame_a) frame_b
     = Raise ZeroDivisionError
  /\ @compare_frames reference_np corner_box 0
       (@prepare reference_np corner_box frame_a) frame_b
     = Ok (@prepare reference_np corner_box frame_b, 0, nan).
Proof.
  assert (H1 : fill_box black small_box frame_a
               = fill_box black small_box frame_b) by reflexivity.
  assert (H2 : 0 < 3) by lia.
  assert (H3 : fill_box black corner_box frame_a
               = fill_box black corner_box frame_b) by reflexivity.
  split; [discriminate|]. split; [exact H1|]. split; [reflexivity|]. split.
  { exact (proj1 (proj2 (@equal_frames_no_difference reference small_box 3
             frame_a frame_b H1)) H2). }
  split; [exact H3|]. split; [reflexivity|]. split.
  - exact (proj2 (proj2 (proj2 (@equal_frames_no_difference reference
             corner_box 0 frame_a frame_b H3))) eq_refl).
  - exact (proj2 (proj2 (proj2 (@equal_frames_no_difference reference_np
             corner_box 0 frame_a frame_b H3))) eq_refl).
Defined.

(** C9, as stated, fails on a mask that covers the frame: two 2x2 frames
    that the mask (0, 0, 2, 2) makes equal do not compare as (0, 0.0).
    With a Python int as count the comparison raises; with a NumPy integer
    it gives the count 0 and the ratio NaN. *)
Lemma equal_frames_full_mask_no_ratio :
  ~ @equal_frames_compare_zero reference corner_box frame_a frame_b
  /\ ~ @equal_frames_compare_zero reference_np corner_box frame_a frame_b.
Proof.
  unfold equal_frames_compare_zero. split; intros H; specialize (H eq_refl).
  - vm_compute in H. discriminate H.
  - assert (Hr : forall x y : res (image Z * Z * float), x = y ->
               match x with Ok (_, _, r) => PrimFloat.is_nan r | _ => false end
               = match y with Ok (_, _, r) => PrimFloat.is_nan r | _ => false end)
      by (by intros x y ->).
    apply Hr in H. vm_compute in H. discriminate H.
Qed.

(** ** The mask *)

(** Frames that differ only inside the rectangle are the same frame once
    masked. *)
Lemma fill_box_agree {A} (zero : A) tb (f g : image A) :
  agree_outside tb f g -> fill_box zero tb f = fill_box zero tb g.
Proof.
  intros [Hlen Hrows]. unfold fill_box, height. rewrite <- Hlen.
  apply list_eq. intros y. rewrite !list_lookup_imap.
  destruct (f !! y) as [row|] eqn:Hf, (g !! y) as [row'|] eqn:Hg; simpl.
  - destruct (Hrows y row row' Hf Hg) as [Hl Hx]. f_equal.
    rewrite <- Hl. apply list_eq. intros x. rewrite !list_lookup_imap.
    specialize (Hx x). unfold height in Hx.
    destruct (in_box _ _ _ _ _) eqn:Hin.
    + destruct (row !! x) as [v|] eqn:Hv, (row' !! x) as [v'|] eqn:Hv';
        simpl; try done.
      * apply lookup_lt_Some in Hv. apply lookup_ge_None in Hv'. lia.
      * apply lookup_lt_Some in Hv'. apply lookup_ge_None in Hv. lia.
    + by rewrite Hx.
  - apply lookup_lt_Some in Hf. apply lookup_ge_None in Hg. lia.
  - apply lookup_lt_Some in Hg. apply lookup_ge_None in Hf. lia.
  - done.
Qed.

Lemma in_box_invariant tb (h w : nat) (y x : nat) :
  mask_invariant tb (Z.of_nat w) (Z.of_nat h) ->
  in_box tb (Z.of_nat h) (Z.of_nat w) (Z.of_nat y) (Z.of_nat x)
  = let '(x1, y1, x2, y2) := tb in
    ((y1 <=? Z.of_nat y) && (Z.of_nat y <? y2))
    && ((x1 <=? Z.of_nat x) && (Z.of_nat x <? x2)).
Proof.
  destruct tb as [[[x1 y1] x2] y2]. intros (Hx1 & Hx2 & Hy1 & Hy2).
  unfold in_box, in_slice, slice_index.
  destruct (y1 <? 0) eqn:E1; [apply Z.ltb_lt in E1; lia|].
  destruct (y2 <? 0) eqn:E2; [apply Z.ltb_lt in E2; lia|].
  destruct (x1 <? 0) eqn:E3; [apply Z.ltb_lt in E3; lia|].
  destruct (x2 <? 0) eqn:E4; [apply Z.ltb_lt in E4; lia|].
  by rewrite !Z.min_l by lia.
Qed.

(** Indices of [0, n) outside [a, b). *)
Lemma count_outside_interval (a b : Z) (n : nat) :
  0 <= a <= b ->
  Z.of_nat (length (filter (fun x : nat =>
      (a <=? Z.of_nat x) && (Z.of_nat x <? b) = false) (seq 0 n)))
  = Z.of_nat n - (Z.min b (Z.of_nat n) - Z.min a (Z.of_nat n)).
Proof.
  intros Hab. induction n as [|n IH]; [simpl; lia|].
  rewrite seq_S, filter_app, length_app, Nat2Z.inj_add, IH. simpl seq.
  rewrite filter_cons, filter_nil.
  destruct (decide _) as [E|E]; simpl length.
  - apply andb_false_iff in E as [E|E];
      [apply Z.leb_gt in E | apply Z.ltb_ge in E]; lia.
  - apply not_false_is_true, andb_prop in E as [E1 E2].
    apply Z.leb_le in E1. apply Z.ltb_lt in E2. lia.
Qed.

Lemma outside_in_row_invariant tb (h w y : nat) :
  mask_invariant tb (Z.of_nat w) (Z.of_nat h) ->
  Z.of_nat (outside_in_row tb h w y)
  = let '(x1, y1, x2, y2) := tb in
    if (y1 <=? Z.of_nat y) && (Z.of_nat y <? y2)
    then Z.of_nat w - (x2 - x1) else Z.of_nat w.
Proof.
  intros Hinv. unfold outside_in_row.
  destruct tb as [[[x1 y1] x2] y2] eqn:Htb.
  destruct ((y1 <=? Z.of_nat y) && (Z.of_nat y <? y2)) eqn:Hy.
  - rewrite (list_filter_iff _ (fun x : nat =>
      (x1 <=? Z.of_nat x) && (Z.of_nat x <? x2) = false)).
    + destruct Hinv as (Hx1 & Hx2 & _).
      rewrite count_outside_interval by lia. lia.
    + intros x. rewrite (in_box_invariant _ _ _ _ _ Hinv). by rewrite Hy.
  - rewrite (list_filter_iff _ (fun x : nat =>
      (0 <=? Z.of_nat x) && (Z.of_nat x <? 0) = false)).
    + rewrite count_outside_interval by lia. lia.
    + intros x. rewrite (in_box_invariant _ _ _ _ _ Hinv), Hy. simpl.
      split; [|done]. intros _. apply andb_false_iff. right.
      apply Z.ltb_ge. lia.
Qed.

Lemma outside_rows_sum tb (h w : nat) (n : nat) :
  mask_invariant tb (Z.of_nat w) (Z.of_nat h) ->
  Z.of_nat (foldr (fun y acc => (outside_in_row tb h w y + acc)%nat) 0%nat
              (seq 0 n))
  = let '(x1, y1, x2, y2) := tb in
    Z.of_nat n * Z.of_nat w
    - (Z.min y2 (Z.of_nat n) - Z.min y1 (Z.of_nat n)) * (x2 - x1).
Proof.
  intros Hinv.
  assert (Hacc : forall l a,
    foldr (fun y acc => (outside_in_row tb h w y + acc)%nat) a l
    = (foldr (fun y acc => (outside_in_row tb h w y + acc)%nat) 0 l + a)%nat).
  { induction l as [|y l IHl]; intros a; simpl; [done|]. rewrite IHl. lia. }
  induction n as [|n IH].
  - destruct tb as [[[x1 y1] x2] y2]. destruct Hinv as (? & ? & ? & ?).
    simpl. rewrite !Z.min_r by lia. lia.
  - rewrite seq_S, foldr_app. simpl foldr. rewrite Hacc, Nat2Z.inj_add, IH.
    rewrite Nat.add_0_r, (outside_in_row_invariant _ _ _ _ Hinv).
    destruct tb as [[[x1 y1] x2] y2]. destruct Hinv as (? & ? & ? & ?).
    destruct ((y1 <=? Z.of_nat n) && (Z.of_nat n <? y2)) eqn:Hy.
    + apply andb_prop in Hy as [E1 E2].
      apply Z.leb_le in E1. apply Z.ltb_lt in E2.
      repeat match goal with
      | |- context [Z.min ?a ?b] =>
          destruct (Z.min_spec a b) as [[? ->]|[? ->]]
      end; nia.
    + apply andb_false_iff in Hy as [E|E];
        [apply Z.leb_gt in E | apply Z.ltb_ge in E];
        repeat match goal with
        | |- context [Z.min ?a ?b] =>
            destruct (Z.min_spec a b) as [[? ->]|[? ->]]
        end; nia.
Qed.

(** Under the invariant, the positions left outside the rectangle number
    the frame area minus the mask area. *)
Lemma outside_count_invariant tb (h w : nat) :
  mask_invariant tb (Z.of_nat w) (Z.of_nat h) ->
  Z.of_nat (outside_count tb h w)
  = Z.of_nat h * Z.of_nat w - mask_area tb.
Proof.
  intros Hinv. unfold outside_count. rewrite outside_rows_sum by done.
  destruct tb as [[[x1 y1] x2] y2]. destruct Hinv as (? & ? & ? & ?).
  unfold mask_area. rewrite Z.min_l, Z.min_l by lia. lia.
Qed.

Section MaskProps.
Context {cv : OpenCV}.

(** C2, as amended: what the pixels inside the mask rectangle hold never
    reaches the comparison (frames that differ only there are prepared to
    the same image and give the same pixelCount and ratio, whatever the
    mask rectangle is), and the denominator of the ratio is the frame area
    minus the mask area; under the mask invariant, and only there, that
    is the number of positions outside the rectangle.  That pixelCount
    counts no position inside the rectangle is not part of it. *)
Theorem mask_content_ignored tb (prev prev' frame frame' : image Pixel) :
  let gray := prepare tb prev in
  let total_pixels := total_pixels_of tb gray in
  (agree_outside tb prev prev' -> prepare tb prev' = gray)
  /\ (agree_outside tb frame frame' ->
      forall total prev_gray,
        compare_frames tb total prev_gray frame'
        = compare_frames tb total prev_gray frame)
  /\ total_pixels = height gray * width gray - mask_area tb
  /\ (mask_invariant tb (width gray) (height gray) ->
      total_pixels
      = Z.of_nat (outside_count tb (length gray) (Z.to_nat (width gray)))).
Proof.
  intros gray total_pixels.
  assert (Harea : total_pixels = height gray * width gray - mask_area tb).
  { unfold total_pixels, total_pixels_of, mask_area.
    by destruct tb as [[[x1 y1] x2] y2]. }
  split; [|split; [|split]].
  - intros Hprev. unfold gray. symmetry.
    by apply prepare_masked, fill_box_agree.
  - intros Hframe total prev_gray. unfold compare_frames.
    by rewrite (prepare_masked _ _ _ (fill_box_agree black _ _ _ Hframe)).
  - exact Harea.
  - intros Hinv. rewrite Harea, outside_count_invariant.
    + unfold height. rewrite Z2Nat.id; [done|].
      unfold width. destruct gray; lia.
    + fold (height gray). rewrite Z2Nat.id; [done|].
      unfold width. destruct gray; lia.
Qed.

End MaskProps.

Lemma mask_content_ignored_witness :
  frame_a <> frame_b
  /\ agree_outside small_box frame_a frame_b
  /\ mask_invariant small_box 2 2
  /\ @prepare reference small_box frame_b = @prepare reference small_box frame_a
  /\ @compare_frames reference small_box 3
       (@prepare reference small_box frame_a) frame_b
     = @compare_frames reference small_box 3
         (@prepare reference small_box frame_a) frame_a
  /\ total_pixels_of small_box (@prepare reference small_box frame_a)
     = Z.of_nat (outside_count small_box 2 2).
Proof.
  assert (H1 : agree_outside small_box frame_a frame_b).
  { split; [reflexivity|]. intros y row row' Ha Hb.
    destruct y as [|[|y]]; simpl in Ha, Hb; try discriminate;
      injection Ha as <-; injection Hb as <-; (split; [reflexivity|]);
      intros x; destruct x as [|[|x]]; vm_compute; congruence. }
  assert (H2 : mask_invariant small_box
                 (width (@prepare reference small_box frame_a))
                 (height (@prepare reference small_box frame_a)))
    by (vm_compute; repeat split; discriminate).
  split; [discriminate|]. split; [exact H1|]. split; [exact H2|].
  destruct (@mask_content_ignored reference small_box
              frame_a frame_b frame_a frame_b) as (Hp & Hc & _ & Hn).
  split; [exact (Hp H1)|]. split; [exact (Hc H1 3 _)|]. exact (Hn H2).
Defined.

(** C2, as stated, fails: between a black and a white 6x6 frame under the
    mask (0, 0, 2, 2), all 36 positions are counted as changed, four of
    them inside the mask, while 32 lie outside. *)
Lemma mask_positions_counted :
  ~ @counts_only_outside reference corner_box (solid 0 6 6) (solid 255 6 6).
Proof.
  unfold counts_only_outside. intros H.
  specialize (H (replicate 6 (replicate 6 255))).
  assert (Hc : @changed_pixels (@prepare reference corner_box (solid 255 6 6))
                 (@prepare reference corner_box (solid 0 6 6))
               = Ok (replicate 6 (replicate 6 255)))
    by (vm_compute; reflexivity).
  specialize (H Hc). vm_compute in H. discriminate H.
Qed.

(** ** The denominator of the ratio *)

Lemma total_pixels_invariant tb (gray : image Z) :
  mask_invariant tb (width gray) (height gray) ->
  0 <= total_pixels_of tb gray
  /\ (0 < total_pixels_of tb gray
      <-> mask_area tb < height gray * width gray).
Proof.
  destruct tb as [[[x1 y1] x2] y2]. intros (Hx1 & Hx2 & Hy1 & Hy2).
  unfold total_pixels_of, mask_area. split; [nia|lia].
Qed.

Lemma int_true_div_defined n d :
  (exists q, int_true_div n d = Ok q) <-> d <> 0.
Proof.
  unfold int_true_div. destruct (d =? 0) eqn:E.
  - apply Z.eqb_eq in E. split; [by intros [q Hq]|done].
  - apply Z.eqb_neq in E. split; [done|]. intros _.
    destruct (n =? 0); by eexists.
Qed.

(** The comparison of two prepared frames fails on a size mismatch
    only. *)
Lemma changed_pixels_raise frame_gray prev_gray e :
  changed_pixels frame_gray prev_gray = Raise e -> e = CvError.
Proof.
  unfold changed_pixels, absdiff. destruct (_ && _); simpl; [done|].
  by intros [= <-].
Qed.

Lemma changed_pixels_same_size frame_gray prev_gray :
  height frame_gray = height prev_gray ->
  width frame_gray = width prev_gray ->
  exists thresh, changed_pixels frame_gray prev_gray = Ok thresh.
Proof.
  intros Hh Hw. unfold changed_pixels, absdiff.
  rewrite Hh, Hw, !Z.eqb_refl. simpl. by eexists.
Qed.

Section DenominatorProps.
Context {cv : OpenCV}.

(** Away from a zero divisor the type of the count makes no difference. *)
Lemma count_div_nonzero n d : d <> 0 -> count_div n d = int_true_div n d.
Proof.
  intros Hd. unfold count_div, numpy_true_div, int_true_div.
  apply Z.eqb_neq in Hd. rewrite Hd.
  destruct count_nonzero_int64; [|done]. by destruct (n =? 0).
Qed.

Lemma count_div_defined n d :
  (exists q, count_div n d = Ok q) <-> count_nonzero_int64 = true \/ d <> 0.
Proof.
  unfold count_div. destruct count_nonzero_int64.
  - split; [by left|]. intros _. by eexists.
  - rewrite int_true_div_defined. split; [by right|]. by intros [|].
Qed.

(** With a Python int as count and a zero denominator, the comparison at
    the first sampled frame raises. *)
Lemma sampling_loop_zero_total threshold tb ratio_threshold check_interval
    rest l f :
  count_nonzero_int64 = false ->
  0 <= frame_idx l < check_interval ->
  rest !! Z.to_nat (check_interval - 1 - frame_idx l) = Some f ->
  height (prepare tb f) = height (prev_frame_gray l) ->
  width (prepare tb f) = width (prev_frame_gray l) ->
  sampling_loop threshold tb ratio_threshold check_interval 0 rest l
  = Raise ZeroDivisionError.
Proof.
  intros Hmode. revert l.
  induction rest as [|frame rest IH]; intros l Hidx Hlook Hh Hw; [done|].
  simpl sampling_loop.
  destruct ((frame_idx l + 1) mod check_interval =? 0) eqn:Hmod;
    simpl negb; cbv iota.
  - apply Z.eqb_eq in Hmod.
    assert (Hlast : frame_idx l = check_interval - 1).
    { destruct (decide (frame_idx l + 1 < check_interval)) as [Hlt|Hge];
        [|lia].
      rewrite Z.mod_small in Hmod by lia. lia. }
    rewrite Hlast in Hlook.
    replace (check_interval - 1 - (check_interval - 1)) with 0 in Hlook by lia.
    injection Hlook as ->.
    destruct (changed_pixels_same_size _ _ Hh Hw) as [thresh Hc].
    unfold compare_frames. rewrite Hc. simpl. unfold count_div.
    by rewrite Hmode.
  - apply Z.eqb_neq in Hmod.
    assert (Hlt : frame_idx l + 1 < check_interval).
    { destruct (decide (frame_idx l + 1 = check_interval)) as [E|E]; [|lia].
      rewrite E, Z.mod_same in Hmod by lia. done. }
    apply IH; simpl; [lia| |done|done].
    replace (Z.to_nat (check_interval - 1 - frame_idx l))
      with (S (Z.to_nat (check_interval - 1 - (frame_idx l + 1))))
      in Hlook by lia.
    exact Hlook.
Qed.

(** Frames whose index stays below the stride are read and skipped. *)
Lemma sampling_loop_unsampled threshold tb ratio_threshold check_interval
    total_pixels rest l :
  0 <= frame_idx l ->
  frame_idx l + Z.of_nat (length rest) < check_interval ->
  exists r,
    sampling_loop threshold tb ratio_threshold check_interval total_pixels
      rest l = Ok r
    /\ has_motion r = has_motion l
    /\ frame_idx r = frame_idx l + Z.of_nat (length rest)
    /\ total_checked_frames r = total_checked_frames l.
Proof.
  revert l. induction rest as [|frame rest IH]; intros l Hidx Hlen.
  - exists l. simpl. repeat split; lia.
  - rewrite length_cons in Hlen. simpl sampling_loop.
    rewrite Z.mod_small by lia.
    destruct (frame_idx l + 1 =? 0) eqn:E; [apply Z.eqb_eq in E; lia|].
    simpl negb. cbv iota.
    edestruct IH as (r & -> & H1 & H2 & H3); [| |exists r].
    + simpl. lia.
    + simpl. lia.
    + simpl in H1, H2, H3. rewrite length_cons.
      repeat split; (done || lia).
Qed.

(** With a NumPy integer as count no comparison raises a division error,
    and on frames of one size the loop runs to its end. *)
Lemma sampling_loop_no_division threshold tb ratio_threshold check_interval
    total_pixels rest l :
  count_nonzero_int64 = true ->
  sampling_loop threshold tb ratio_threshold check_interval total_pixels
    rest l <> Raise ZeroDivisionError.
Proof.
  intros Hmode. revert l. induction rest as [|frame rest IH]; intros l; [done|].
  simpl sampling_loop. destruct (negb _); [apply IH|].
  unfold compare_frames.
  destruct (changed_pixels _ _) as [thresh|e] eqn:Hc; simpl.
  - unfold count_div. rewrite Hmode. simpl.
    destruct (_ && _); [done|apply IH].
  - by rewrite (changed_pixels_raise _ _ _ Hc).
Qed.

Lemma sampling_loop_classifies threshold tb ratio_threshold check_interval
    total_pixels (h w : Z) rest l :
  count_nonzero_int64 = true ->
  Forall (fun f => height (prepare tb f) = h /\ width (prepare tb f) = w)
    rest ->
  height (prev_frame_gray l) = h -> width (prev_frame_gray l) = w ->
  exists l',
    sampling_loop threshold tb ratio_threshold check_interval total_pixels
      rest l = Ok l'.
Proof.
  intros Hmode Hrest. revert l.
  induction Hrest as [|frame rest [Hh Hw] Hrest IH]; intros l Hph Hpw.
  - by eexists.
  - simpl sampling_loop. destruct (negb _); [by apply IH|].
    destruct (changed_pixels_same_size (prepare tb frame) (prev_frame_gray l))
      as [thresh Hc]; [congruence|congruence|].
    unfold compare_frames. rewrite Hc. simpl. unfold count_div.
    rewrite Hmode. simpl. destruct (_ && _); [by eexists|by apply IH].
Qed.

(** C10, as amended: the denominator is the frame area minus the mask
    area; under the mask invariant it is never negative, and positive
    exactly when the mask area is smaller than the frame area.  With a
    count that is a Python int the division is defined exactly when the
    denominator is not zero (under the invariant: exactly when the mask is
    smaller than the frame), and under a mask of the frame's area the
    classification of a clip in which some frame is sampled (the clip
    yields at least stride frames after the first, that frame being of
    the first frame's size) raises a division error; a clip that yields
    fewer frames, at a frame rate that is not zero, is classified as not
    moving without any division.  With a count that is a NumPy integer the
    division is always defined (NaN or an infinity on a zero denominator):
    no classification raises a division error, and a clip whose frames are
    of one size is classified. *)
Theorem full_mask_division :
  (forall tb (gray : image Z),
     total_pixels_of tb gray = height gray * width gray - mask_area tb
     /\ (mask_invariant tb (width gray) (height gray) ->
         0 <= total_pixels_of tb gray
         /\ (0 < total_pixels_of tb gray
             <-> mask_area tb < height gray * width gray)
         /\ (count_nonzero_int64 = false ->
             forall n,
               (exists q, count_div n (total_pixels_of tb gray) = Ok q)
               <-> mask_area tb < height gray * width gray)))
  /\ (forall n total_pixels,
        (exists q, count_div n total_pixels = Ok q)
        <-> count_nonzero_int64 = true \/ total_pixels <> 0)
  /\ (forall tb cap threshold ratio_threshold f0 rest f,
        count_nonzero_int64 = false ->
        isOpened cap = true ->
        frames cap = f0 :: rest ->
        mask_area tb = height (prepare tb f0) * width (prepare tb f0) ->
        rest !! Z.to_nat (Z.max 1 (CAP_PROP_FRAME_COUNT cap / 20) - 1)
          = Some f ->
        height (prepare tb f) = height (prepare tb f0) ->
        width (prepare tb f) = width (prepare tb f0) ->
        check_video_motion cap threshold tb ratio_threshold
        = Raise ZeroDivisionError)
  /\ (forall tb cap threshold ratio_threshold f0 rest,
        isOpened cap = true ->
        frames cap = f0 :: rest ->
        PrimFloat.eqb (CAP_PROP_FPS cap) 0 = false ->
        Z.of_nat (length rest) < Z.max 1 (CAP_PROP_FRAME_COUNT cap / 20) ->
        check_video_motion cap threshold tb ratio_threshold = Ok false)
  /\ (forall tb cap threshold ratio_threshold,
        count_nonzero_int64 = true ->
        PrimFloat.eqb (CAP_PROP_FPS cap) 0 = false ->
        check_video_motion cap threshold tb ratio_threshold
        <> Raise ZeroDivisionError)
  /\ (forall tb cap threshold ratio_threshold f0 rest,
        count_nonzero_int64 = true ->
        PrimFloat.eqb (CAP_PROP_FPS cap) 0 = false ->
        frames cap = f0 :: rest ->
        Forall (fun f => height (prepare tb f) = height (prepare tb f0)
                         /\ width (prepare tb f) = width (prepare tb f0))
          rest ->
        exists b, check_video_motion cap threshold tb ratio_threshold = Ok b).
Proof.
  assert (Harea : forall tb (gray : image Z),
            total_pixels_of tb gray
            = height gray * width gray - mask_area tb).
  { intros tb gray. unfold total_pixels_of, mask_area.
    by destruct tb as [[[x1 y1] x2] y2]. }
  split; [|split; [|split; [|split; [|split]]]].
  - intros tb gray. split; [apply Harea|]. intros Hinv.
    destruct (total_pixels_invariant _ _ Hinv) as [Hnn Hpos].
    split; [done|]. split; [done|]. intros Hmode n.
    rewrite count_div_defined, Hmode, <- Hpos. split; [|lia].
    intros [|]; [done|lia].
  - apply count_div_defined.
  - intros tb cap threshold ratio_threshold f0 rest f Hmode Ho Hf Hfull
      Hlook Hh Hw.
    unfold check_video_motion. rewrite Ho, Hf. simpl negb. cbv iota.
    unfold scan_frames. destruct (float_div _ _) as [d|e] eqn:Hd.
    + simpl. rewrite Harea, Hfull, Z.sub_diag.
      rewrite (sampling_loop_zero_total _ _ _ _ _ _ f); [done|done| | | |].
      * simpl. lia.
      * simpl. by rewrite Z.sub_0_r.
      * done.
      * done.
    + unfold float_div in Hd. destruct (PrimFloat.eqb _ _); [|done].
      by injection Hd as <-.
  - intros tb cap threshold ratio_threshold f0 rest Ho Hf Hfps Hlen.
    unfold check_video_motion. rewrite Ho, Hf. simpl negb. cbv iota.
    unfold scan_frames, float_div. rewrite Hfps.
    edestruct (sampling_loop_unsampled threshold tb ratio_threshold
                 (Z.max 1 (CAP_PROP_FRAME_COUNT cap / 20)))
      as (r & Hr & Hm & _).
    3: { simpl. rewrite Hr. simpl. by rewrite Hm. }
    + simpl. lia.
    + simpl. lia.
  - intros tb cap threshold ratio_threshold Hmode Hfps.
    unfold check_video_motion. destruct (negb _); [done|].
    destruct (frames cap) as [|f0 rest]; [done|].
    unfold scan_frames, float_div. rewrite Hfps. simpl.
    destruct (sampling_loop _ _ _ _ _ _ _) as [l|e] eqn:Hl; simpl; [done|].
    intros [= ->]. by apply sampling_loop_no_division in Hl.
  - intros tb cap threshold ratio_threshold f0 rest Hmode Hfps Hf Hrest.
    unfold check_video_motion. destruct (negb _); [by eexists|].
    rewrite Hf. unfold scan_frames, float_div. rewrite Hfps. simpl.
    edestruct (sampling_loop_classifies threshold tb ratio_threshold)
      as [l' ->]; [done|exact Hrest|done|done|].
    by eexists.
Qed.

End DenominatorProps.

Lemma full_mask_division_witness :
  mask_invariant corner_box 2 2
  /\ mask_area corner_box = 2 * 2
  /\ total_pixels_of corner_box (@prepare reference corner_box (solid 0 2 2))
     = 0
  /\ @check_video_motion reference three_frames default_threshold corner_box
       default_ratio_threshold
     = Raise ZeroDivisionError
  /\ @check_video_motion reference short_clip default_threshold corner_box
       default_ratio_threshold
     = Ok false
  /\ @check_video_motion reference_np three_frames default_threshold
       corner_box default_ratio_threshold
     <> Raise ZeroDivisionError
  /\ exists b,
       @check_video_motion reference_np three_frames default_threshold
         corner_box default_ratio_threshold = Ok b.
Proof.
  assert (H1 : mask_invariant corner_box
                 (width (@prepare reference corner_box (solid 0 2 2)))
                 (height (@prepare reference corner_box (solid 0 2 2))))
    by (vm_compute; repeat split; discriminate).
  assert (H2 : mask_area corner_box
               = height (@prepare reference corner_box (solid 0 2 2))
                 * width (@prepare reference corner_box (solid 0 2 2)))
    by reflexivity.
  assert (H3 : frames three_frames
               = solid 0 2 2 :: [solid 255 2 2; solid 0 2 2]) by reflexivity.
  assert (H4 : [solid 255 2 2; solid 0 2 2]
                 !! Z.to_nat (Z.max 1 (CAP_PROP_FRAME_COUNT three_frames / 20)
                              - 1)
               = Some (solid 255 2 2)) by reflexivity.
  assert (H5 : PrimFloat.eqb (CAP_PROP_FPS three_frames) 0 = false)
    by reflexivity.
  assert (H6 : Forall (fun f =>
                 height (@prepare reference_np corner_box f)
                 = height (@prepare reference_np corner_box (solid 0 2 2))
                 /\ width (@prepare reference_np corner_box f)
                    = width (@prepare reference_np corner_box (solid 0 2 2)))
                 [solid 255 2 2; solid 0 2 2])
    by (repeat constructor).
  assert (H7 : frames short_clip
               = solid 0 2 2 :: [solid 255 2 2; solid 0 2 2]) by reflexivity.
  assert (H8 : Z.of_nat (length [solid 255 2 2; solid 0 2 2])
               < Z.max 1 (CAP_PROP_FRAME_COUNT short_clip / 20))
    by (vm_compute; reflexivity).
  destruct (@full_mask_division reference) as (_ & _ & Hc & Hu & _).
  destruct (@full_mask_division reference_np) as (_ & _ & _ & _ & Hd & He).
  split; [exact H1|]. split; [exact H2|]. split; [reflexivity|]. split.
  { exact (Hc corner_box three_frames default_threshold
             default_ratio_threshold (solid 0 2 2)
             [solid 255 2 2; solid 0 2 2] (solid 255 2 2)
             eq_refl eq_refl H3 H2 H4 eq_refl eq_refl). }
  split.
  { exact (Hu corner_box short_clip default_threshold
             default_ratio_threshold (solid 0 2 2)
             [solid 255 2 2; solid 0 2 2] eq_refl H7 H5 H8). }
  split.
  - exact (Hd corner_box three_frames default_threshold
             default_ratio_threshold eq_refl H5).
  - exact (He corner_box three_frames default_threshold
             default_ratio_threshold (solid 0 2 2)
             [solid 255 2 2; solid 0 2 2] eq_refl H5 H3 H6).
Defined.

(** C10, as stated, fails.  With a Python int as count: a clip of three
    2x2 frames whose container reports a hundred has a stride of five, so
    no frame is compared and, under the mask (0, 0, 2, 2) that covers the
    frame, the classification returns no motion without dividing.  With a
    NumPy integer as count: the same three frames reported as three are
    compared, the ratio is NaN and the classification returns no motion. *)
Lemma full_mask_no_division_error :
  ~ @full_mask_always_fails reference corner_box short_clip
  /\ ~ @full_mask_always_fails reference_np corner_box three_frames.
Proof.
  assert (Hne : [solid 255 2 2; solid 0 2 2] <> []) by discriminate.
  unfold full_mask_always_fails. split; intros H.
  - specialize (H default_threshold default_ratio_threshold (solid 0 2 2)
                  [solid 255 2 2; solid 0 2 2] eq_refl eq_refl Hne eq_refl).
    vm_compute in H. discriminate H.
  - specialize (H default_threshold default_ratio_threshold (solid 0 2 2)
                  [solid 255 2 2; solid 0 2 2] eq_refl eq_refl Hne eq_refl).
    vm_compute in H. discriminate H.
Qed.

(** * Further properties *)

(** ** Temporal key parser: what a matching name gives *)

Lemma string_app_assoc (a b c : string) :
  ((a +:+ b) +:+ c = a +:+ b +:+ c)%string.
Proof.
  induction a as [|x a IH]; [done|].
  change (String x ((a +:+ b) +:+ c) = String x (a +:+ b +:+ c))%string.
  by rewrite IH.
Qed.

Lemma matches_pattern_trailing s g1 g2 t :
  matches_pattern s g1 g2 -> matches_pattern (s +:+ t) g1 g2.
Proof.
  intros (g3 & rest & -> & H1 & H2 & H3). exists g3, (rest +:+ t)%string.
  split; [|done].
  change (g1 +:+ "M" +:+ g2 +:+ "S_" +:+ g3 +:+ rest)%string
    with (g1 +:+ String "M" (g2 +:+ String "S" (String "_" (g3 +:+ rest))))%string.
  change (g1 +:+ "M" +:+ g2 +:+ "S_" +:+ g3 +:+ rest +:+ t)%string
    with (g1 +:+ String "M"
            (g2 +:+ String "S" (String "_" (g3 +:+ rest +:+ t))))%string.
  rewrite string_app_assoc.
  change (String "M" (g2 +:+ String "S" (String "_" (g3 +:+ rest))) +:+ t)%string
    with (String "M"
            ((g2 +:+ String "S" (String "_" (g3 +:+ rest))) +:+ t))%string.
  rewrite string_app_assoc.
  change (String "S" (String "_" (g3 +:+ rest)) +:+ t)%string
    with (String "S" (String "_" ((g3 +:+ rest) +:+ t)))%string.
  by rewrite string_app_assoc.
Qed.

(** X1: a name made of a run of digits, M, a run of digits, S, an
    underscore, a run of digits and then anything parses to the values of
    the first two runs. *)
Theorem parse_video_time_groups (g1 g2 g3 rest : string) :
  digit_run g1 -> digit_run g2 -> digit_run g3 ->
  parse_video_time (g1 +:+ "M" +:+ g2 +:+ "S_" +:+ g3 +:+ rest)
  = (int g1, int g2).
Proof.
  intros H1 H2 H3. unfold parse_video_time.
  rewrite (re_match_complete _ g1 g2); [done|]. by exists g3, rest.
Qed.

Lemma parse_video_time_groups_witness :
  digit_run "12" /\ digit_run "07" /\ digit_run "99"
  /\ parse_video_time "12M07S_99_copy" = (12, 7).
Proof.
  assert (H1 : digit_run "12") by (split; [discriminate|reflexivity]).
  assert (H2 : digit_run "07") by (split; [discriminate|reflexivity]).
  assert (H3 : digit_run "99") by (split; [discriminate|reflexivity]).
  split; [exact H1|]. split; [exact H2|]. split; [exact H3|].
  exact (parse_video_time_groups "12" "07" "99" "_copy" H1 H2 H3).
Defined.

(** X2: the match is anchored at the start only: text appended to a name
    that matches does not change its key. *)
Theorem parse_video_time_trailing (s g1 g2 t : string) :
  matches_pattern s g1 g2 ->
  parse_video_time (s +:+ t) = parse_video_time s.
Proof.
  intros H. unfold parse_video_time.
  by rewrite (re_match_complete _ _ _ H),
             (re_match_complete _ _ _ (matches_pattern_trailing _ _ _ t H)).
Qed.

Lemma parse_video_time_trailing_witness :
  matches_pattern "04M21S_17" "04" "21"
  /\ parse_video_time ("04M21S_17" +:+ "23482261.mp4")
     = parse_video_time "04M21S_17".
Proof.
  assert (H : matches_pattern "04M21S_17" "04" "21").
  { exists "17"%string, ""%string. split; [reflexivity|].
    repeat split; (discriminate || reflexivity). }
  split; [exact H|].
  exact (parse_video_time_trailing "04M21S_17" "04" "21" "23482261.mp4" H).
Defined.

Lemma digit_value_nonneg c : is_digit c = true -> 0 <= digit_value c.
Proof.
  unfold is_digit, digit_value. intros H. apply andb_prop in H as [H _].
  apply Nat.leb_le in H. lia.
Qed.

Lemma int_of_digits_nonneg acc d :
  0 <= acc -> all_digits d = true -> 0 <= int_of_digits acc d.
Proof.
  revert acc. induction d as [|c d IH]; intros acc Hacc Hd; simpl; [done|].
  simpl in Hd. apply andb_prop in Hd as [Hc Hd].
  apply IH; [|done]. pose proof (digit_value_nonneg c Hc). lia.
Qed.

Lemma parse_video_time_nonneg s :
  0 <= (parse_video_time s).1 /\ 0 <= (parse_video_time s).2.
Proof.
  unfold parse_video_time.
  destruct (re_match s) as [[g1 g2]|] eqn:E; [|simpl; lia].
  apply re_match_sound in E as (g3 & rest & _ & [_ H1] & [_ H2] & _).
  split; by apply int_of_digits_nonneg.
Qed.

(** X3: no key has a negative component, so the key (0, 0) of a name that
    does not match is smaller than or equal to every key: such clips sort
    before, or tie with, every other clip. *)
Theorem unparsable_key_minimal (s t : string) :
  (forall g1 g2, ~ matches_pattern s g1 g2) ->
  0 <= (parse_video_time t).1 /\ 0 <= (parse_video_time t).2
  /\ tuple_leb (parse_video_time s) (parse_video_time t) = true.
Proof.
  intros Hno. destruct (parse_video_time_nonneg t) as [H1 H2].
  split; [done|]. split; [done|].
  assert (parse_video_time s = (0, 0)) as ->.
  { unfold parse_video_time.
    destruct (re_match s) as [[g1 g2]|] eqn:E; [|done].
    exfalso. exact (Hno g1 g2 (re_match_sound _ _ _ E)). }
  destruct (parse_video_time t) as [m sec]. simpl in H1, H2.
  unfold tuple_leb. cbn [fst snd].
  destruct (Z.ltb_spec 0 m) as [Hm|Hm]; [done|].
  assert (m = 0) as -> by lia. simpl. by apply Z.leb_le.
Qed.

Lemma unparsable_key_minimal_witness :
  (forall g1 g2, ~ matches_pattern "concatenated_output" g1 g2)
  /\ tuple_leb (parse_video_time "concatenated_output")
       (parse_video_time "00M01S_5") = true.
Proof.
  assert (H : forall g1 g2, ~ matches_pattern "concatenated_output" g1 g2).
  { intros g1 g2 Hm. apply re_match_complete in Hm. vm_compute in Hm.
    discriminate. }
  split; [exact H|].
  exact (proj2 (proj2 (unparsable_key_minimal "concatenated_output"
                         "00M01S_5" H))).
Defined.

(** ** Motion classifier: sampling *)

Section SamplingProps.
Context {cv : OpenCV}.

(** X4: a clip that opens, has a non-zero frame rate and yields fewer
    frames after the first than the sampling stride (a single-frame clip in
    particular) is compared with nothing and classified as not moving,
    whatever its content and the thresholds. *)
Theorem check_video_motion_unsampled cap threshold tb ratio_threshold
    f0 rest :
  isOpened cap = true ->
  frames cap = f0 :: rest ->
  PrimFloat.eqb (CAP_PROP_FPS cap) 0%float = false ->
  Z.of_nat (length rest) < Z.max 1 (CAP_PROP_FRAME_COUNT cap / 20) ->
  check_video_motion cap threshold tb ratio_threshold = Ok false.
Proof.
  intros Ho Hf Hfps Hlen. unfold check_video_motion. rewrite Ho, Hf.
  simpl negb. cbv iota. unfold scan_frames, float_div. rewrite Hfps.
  edestruct (sampling_loop_unsampled threshold tb ratio_threshold
               (Z.max 1 (CAP_PROP_FRAME_COUNT cap / 20))) as (r & Hr & Hm & _).
  3: { simpl. rewrite Hr. simpl. by rewrite Hm. }
  - simpl. lia.
  - simpl. lia.
Qed.

Lemma sampling_loop_short_circuit threshold tb ratio_threshold check_interval
    total_pixels rest more l r :
  has_motion l = false ->
  sampling_loop threshold tb ratio_threshold check_interval total_pixels
    rest l = Ok r ->
  has_motion r = true ->
  sampling_loop threshold tb ratio_threshold check_interval total_pixels
    (rest ++ more) l = Ok r.
Proof.
  revert l. induction rest as [|frame rest IH]; intros l Hl.
  - simpl. intros [= ->] Hr. congruence.
  - simpl. destruct (negb _); [by apply IH|].
    destruct (compare_frames _ _ _ _) as [[[frame_gray diff_count] diff_ratio]|e];
      simpl; [|done].
    destruct (_ && _); [done|]. by apply IH.
Qed.

(** X5: the scan stops at the first comparison that passes both tests:
    when a clip that yields at least one frame is classified as moving,
    frames that follow in the file are never looked at, so appending any
    frames to it leaves the verdict as it is. *)
Theorem check_video_motion_short_circuit cap cap' threshold tb
    ratio_threshold more :
  isOpened cap = true -> isOpened cap' = true ->
  frames cap <> [] ->
  frames cap' = frames cap ++ more ->
  CAP_PROP_FRAME_COUNT cap' = CAP_PROP_FRAME_COUNT cap ->
  CAP_PROP_FPS cap' = CAP_PROP_FPS cap ->
  check_video_motion cap threshold tb ratio_threshold = Ok true ->
  check_video_motion cap' threshold tb ratio_threshold = Ok true.
Proof.
  intros Ho Ho' Hne Hf Hc Hfps. unfold check_video_motion.
  rewrite Ho, Ho', Hf. simpl negb. cbv iota.
  destruct (frames cap) as [|f0 rest]; [done|]. simpl app.
  unfold scan_frames. rewrite Hc, Hfps.
  destruct (float_div _ _) as [d|e]; simpl; [|done].
  destruct (sampling_loop _ _ _ _ _ rest _) as [r|e] eqn:E; simpl; [|done].
  intros [= Hr].
  erewrite sampling_loop_short_circuit; [|reflexivity|exact E|exact Hr].
  simpl. by rewrite Hr.
Qed.

Lemma div_step (ci i : Z) :
  0 < ci -> 0 <= i ->
  ((i + 1) mod ci = 0 -> (i + 1) / ci = i / ci + 1)
  /\ ((i + 1) mod ci <> 0 -> (i + 1) / ci = i / ci).
Proof.
  intros Hci Hi.
  pose proof (Z.div_mod i ci ltac:(lia)) as H1.
  pose proof (Z.mod_pos_bound i ci Hci) as H2.
  pose proof (Z.div_mod (i + 1) ci ltac:(lia)) as H3.
  pose proof (Z.mod_pos_bound (i + 1) ci Hci) as H4.
  split; intros H; nia.
Qed.

(** How far the loop gets and how many comparisons it makes. *)
Lemma sampling_loop_counts threshold tb ratio_threshold check_interval
    total_pixels rest l r :
  0 < check_interval -> 0 <= frame_idx l ->
  sampling_loop threshold tb ratio_threshold check_interval total_pixels
    rest l = Ok r ->
  let last := frame_idx l + Z.of_nat (length rest) in
  let samples := last / check_interval - frame_idx l / check_interval in
  total_checked_frames r <= total_checked_frames l + samples
  /\ (has_motion r = false ->
      frame_idx r = last
      /\ total_checked_frames r = total_checked_frames l + samples).
Proof.
  intros Hci. revert l.
  induction rest as [|frame rest IH]; intros l Hidx; simpl sampling_loop.
  - intros [= <-]. simpl. rewrite Z.add_0_r. split; [lia|]. intros _. lia.
  - rewrite length_cons.
    destruct (div_step check_interval (frame_idx l) Hci Hidx) as [Hs Hn].
    destruct ((frame_idx l + 1) mod check_interval =? 0) eqn:Hmod;
      simpl negb; cbv iota.
    + apply Z.eqb_eq in Hmod. specialize (Hs Hmod).
      destruct (compare_frames _ _ _ _)
        as [[[frame_gray diff_count] diff_ratio]|e]; simpl; [|done].
      destruct (_ && _).
      * intros [= <-]. simpl. split; [|done].
        pose proof (Z.div_le_mono (frame_idx l + 1)
                      (frame_idx l + Z.of_nat (S (length rest)))
                      check_interval Hci ltac:(lia)).
        lia.
      * intros Hr. apply IH in Hr; [|simpl; lia]. simpl in Hr.
        replace (frame_idx l + Z.of_nat (S (length rest)))
          with (frame_idx l + 1 + Z.of_nat (length rest)) by lia.
        destruct Hr as [H1 H2]. split; [lia|].
        intros Hm. destruct (H2 Hm) as [-> ->]. lia.
    + apply Z.eqb_neq in Hmod. specialize (Hn Hmod).
      intros Hr. apply IH in Hr; [|simpl; lia]. simpl in Hr.
      replace (frame_idx l + Z.of_nat (S (length rest)))
        with (frame_idx l + 1 + Z.of_nat (length rest)) by lia.
      destruct Hr as [H1 H2]. split; [lia|].
      intros Hm. destruct (H2 Hm) as [-> ->]. lia.
Qed.

(** X6: when the scan of a clip finds no motion it has read every frame
    after the first, n of them, and has made exactly n div stride
    comparisons, the stride being max(1, reported frame count div 20); a
    scan that finds motion has made at most that many. *)
Theorem scan_frames_counts cap threshold tb ratio_threshold f0 rest r :
  scan_frames cap threshold tb ratio_threshold f0 rest = Ok r ->
  let n := Z.of_nat (length rest) in
  let stride := Z.max 1 (CAP_PROP_FRAME_COUNT cap / 20) in
  total_checked_frames r <= n / stride
  /\ (has_motion r = false ->
      frame_idx r = n /\ total_checked_frames r = n / stride).
Proof.
  unfold scan_frames. destruct (float_div _ _) as [d|e]; simpl; [|done].
  intros Hr. apply sampling_loop_counts in Hr; [|lia|simpl; lia].
  cbn [frame_idx total_checked_frames] in Hr.
  rewrite Z.div_0_l, Z.add_0_l, Z.sub_0_r in Hr by lia.
  destruct Hr as [H1 H2]. split; [exact H1|]. intros Hm.
  exact (H2 Hm).
Qed.

(** X7: when the reported frame count is the number of frames the clip
    decodes to, the scan makes at most 38 comparisons, however long the
    clip is. *)
Theorem scan_frames_bounded cap threshold tb ratio_threshold f0 rest r :
  CAP_PROP_FRAME_COUNT cap = Z.of_nat (length (f0 :: rest)) ->
  scan_frames cap threshold tb ratio_threshold f0 rest = Ok r ->
  total_checked_frames r <= 38.
Proof.
  intros Hc Hr. unfold scan_frames in Hr.
  destruct (float_div _ _) as [d|e]; cbn -[Z.max Z.div] in Hr; [|done].
  apply sampling_loop_counts in Hr as [Hr _]; [|lia|simpl; lia].
  cbn [frame_idx total_checked_frames] in Hr.
  rewrite Z.div_0_l, Z.add_0_l, Z.sub_0_r in Hr by lia.
  rewrite Hc, length_cons in Hr.
  set (n := Z.of_nat (length rest)) in *.
  replace (Z.of_nat (S (length rest))) with (n + 1) in Hr by lia.
  assert (Hn : 0 <= n) by lia.
  pose proof (Z.div_mod (n + 1) 20 ltac:(lia)) as H1.
  pose proof (Z.mod_pos_bound (n + 1) 20 ltac:(lia)) as H2.
  rewrite ?Z.add_0_l in Hr.
  destruct (Z.le_gt_cases ((n + 1) / 20) 1) as [Hq|Hq].
  - rewrite Z.max_l, Z.div_1_r in Hr by lia. lia.
  - assert (n / Z.max 1 ((n + 1) / 20) < 31); [|lia].
    apply Z.div_lt_upper_bound; lia.
Qed.

Lemma sampling_loop_motion threshold tb ratio_threshold check_interval
    total_pixels rest l r :
  has_motion l = false ->
  sampling_loop threshold tb ratio_threshold check_interval total_pixels
    rest l = Ok r ->
  has_motion r = true ->
  threshold < max_diff r
  /\ frame_idx r mod check_interval = 0
  /\ total_checked_frames l < total_checked_frames r.
Proof.
  assert (Hmono : forall rest l r,
    sampling_loop threshold tb ratio_threshold check_interval total_pixels
      rest l = Ok r ->
    total_checked_frames l <= total_checked_frames r).
  { clear. induction rest as [|frame rest IH]; intros l r; simpl.
    - intros [= <-]. lia.
    - destruct (negb _); [intros H; apply IH in H; simpl in H; lia|].
      destruct (compare_frames _ _ _ _)
        as [[[frame_gray diff_count] diff_ratio]|e]; simpl; [|done].
      destruct (_ && _); [intros [= <-]; simpl; lia|].
      intros H. apply IH in H. simpl in H. lia. }
  revert l. induction rest as [|frame rest IH]; intros l Hl; simpl.
  - intros [= <-] Hr. congruence.
  - destruct (negb _) eqn:Hskip; [intros H1 H2; by apply IH in H1|].
    destruct (compare_frames _ _ _ _)
      as [[[frame_gray diff_count] diff_ratio]|e]; simpl; [|done].
    destruct ((threshold <? diff_count) && _) eqn:E.
    + intros [= <-] _. simpl. apply andb_prop in E as [E _].
      apply Z.ltb_lt in E. apply negb_false_iff, Z.eqb_eq in Hskip.
      repeat split; lia.
    + intros H1 H2. pose proof (Hmono _ _ _ H1) as Hc. simpl in Hc.
      apply IH in H1; [|done|done]. simpl in H1. lia.
Qed.

(** X8: a verdict of motion comes from a sampled frame: the scan stopped
    at a frame index that is a multiple of the stride, after at least one
    comparison, and the largest changed-pixel count it recorded exceeds
    the pixel threshold. *)
Theorem scan_frames_motion cap threshold tb ratio_threshold f0 rest r :
  scan_frames cap threshold tb ratio_threshold f0 rest = Ok r ->
  has_motion r = true ->
  threshold < max_diff r
  /\ frame_idx r mod Z.max 1 (CAP_PROP_FRAME_COUNT cap / 20) = 0
  /\ 1 <= total_checked_frames r.
Proof.
  unfold scan_frames. destruct (float_div _ _) as [d|e]; simpl; [|done].
  intros Hr Hm. apply sampling_loop_motion in Hr; [|done|done].
  simpl in Hr. lia.
Qed.

End SamplingProps.

Lemma check_video_motion_unsampled_witness :
  isOpened short_clip = true
  /\ PrimFloat.eqb (CAP_PROP_FPS short_clip) 0%float = false
  /\ 2 < Z.max 1 (CAP_PROP_FRAME_COUNT short_clip / 20)
  /\ @check_video_motion reference short_clip default_threshold
       default_time_box default_ratio_threshold = Ok false.
Proof.
  assert (H1 : isOpened short_clip = true) by reflexivity.
  assert (H2 : frames short_clip
               = solid 0 2 2 :: [solid 255 2 2; solid 0 2 2]) by reflexivity.
  assert (H3 : PrimFloat.eqb (CAP_PROP_FPS short_clip) 0%float = false)
    by reflexivity.
  assert (H4 : Z.of_nat (length [solid 255 2 2; solid 0 2 2])
               < Z.max 1 (CAP_PROP_FRAME_COUNT short_clip / 20))
    by (vm_compute; reflexivity).
  split; [exact H1|]. split; [exact H3|]. split; [exact H4|].
  exact (@check_video_motion_unsampled reference short_clip default_threshold
           default_time_box default_ratio_threshold _ _ H1 H2 H3 H4).
Defined.

Lemma check_video_motion_short_circuit_witness :
  frames four_frames = frames three_frames ++ [solid 9 2 2]
  /\ @check_video_motion reference three_frames 2 small_box 50%float = Ok true
  /\ @check_video_motion reference four_frames 2 small_box 50%float = Ok true.
Proof.
  assert (H1 : isOpened three_frames = true) by reflexivity.
  assert (H2 : isOpened four_frames = true) by reflexivity.
  assert (H3 : frames three_frames <> []) by discriminate.
  assert (H4 : frames four_frames = frames three_frames ++ [solid 9 2 2])
    by reflexivity.
  assert (H5 : CAP_PROP_FRAME_COUNT four_frames
               = CAP_PROP_FRAME_COUNT three_frames) by reflexivity.
  assert (H6 : CAP_PROP_FPS four_frames = CAP_PROP_FPS three_frames)
    by reflexivity.
  assert (H7 : @check_video_motion reference three_frames 2 small_box
                 50%float = Ok true) by (vm_compute; reflexivity).
  split; [exact H4|]. split; [exact H7|].
  exact (@check_video_motion_short_circuit reference three_frames four_frames
           2 small_box 50%float [solid 9 2 2] H1 H2 H3 H4 H5 H6 H7).
Defined.

Lemma scan_frames_counts_witness :
  exists r,
    @scan_frames reference static_clip default_threshold small_box
      default_ratio_threshold (solid 7 2 2) [solid 7 2 2; solid 7 2 2] = Ok r
    /\ total_checked_frames r <= 2
    /\ (has_motion r = false ->
        frame_idx r = 2 /\ total_checked_frames r = 2).
Proof.
  destruct (@scan_frames reference static_clip default_threshold small_box
              default_ratio_threshold (solid 7 2 2)
              [solid 7 2 2; solid 7 2 2]) as [r|e] eqn:E.
  - exists r. split; [reflexivity|].
    exact (@scan_frames_counts reference static_clip default_threshold
             small_box default_ratio_threshold _ _ r E).
  - vm_compute in E. discriminate E.
Defined.

Lemma scan_frames_bounded_witness :
  exists r,
    @scan_frames reference static_clip default_threshold small_box
      default_ratio_threshold (solid 7 2 2) [solid 7 2 2; solid 7 2 2] = Ok r
    /\ total_checked_frames r <= 38.
Proof.
  destruct (@scan_frames reference static_clip default_threshold small_box
              default_ratio_threshold (solid 7 2 2)
              [solid 7 2 2; solid 7 2 2]) as [r|e] eqn:E.
  - exists r. split; [reflexivity|].
    exact (@scan_frames_bounded reference static_clip default_threshold
             small_box default_ratio_threshold (solid 7 2 2)
             [solid 7 2 2; solid 7 2 2] r eq_refl E).
  - vm_compute in E. discriminate E.
Defined.

Lemma scan_frames_motion_witness :
  exists r,
    @scan_frames reference three_frames 2 small_box 50%float
      (solid 0 2 2) [solid 255 2 2; solid 0 2 2] = Ok r
    /\ has_motion r = true
    /\ 2 < max_diff r
    /\ 1 <= total_checked_frames r.
Proof.
  destruct (@scan_frames reference three_frames 2 small_box 50%float
              (solid 0 2 2) [solid 255 2 2; solid 0 2 2]) as [r|e] eqn:E.
  - assert (Hm : has_motion r = true).
    { vm_compute in E. injection E as <-. reflexivity. }
    exists r. split; [reflexivity|]. split; [exact Hm|].
    destruct (@scan_frames_motion reference three_frames 2 small_box 50%float
                _ _ r E Hm) as (H1 & _ & H2).
    split; [exact H1|exact H2].
  - vm_compute in E. discriminate E.
Defined.

(** ** Motion classifier: a clip that does not change *)

Section StaticProps.
Context {cv : OpenCV}.

Lemma sampling_loop_static threshold tb ratio_threshold check_interval
    total_pixels g rest l :
  0 <= threshold -> total_pixels <> 0 ->
  Forall (fun f => prepare tb f = g) rest ->
  prev_frame_gray l = g -> has_motion l = false ->
  exists r,
    sampling_loop threshold tb ratio_threshold check_interval total_pixels
      rest l = Ok r
    /\ has_motion r = false.
Proof.
  intros HT Htp Hrest. revert l.
  induction Hrest as [|frame rest Hf Hrest IH]; intros l Hp Hl.
  - exists l. by simpl.
  - simpl sampling_loop. destruct (negb _).
    + edestruct IH as (r & -> & Hr); [..|exists r; split; [done|exact Hr]];
        done.
    + unfold compare_frames. rewrite Hf, Hp.
      destruct (changed_pixels_self g) as (thresh & -> & Hn). simpl.
      rewrite Hn.
      rewrite count_div_nonzero by done.
      destruct (proj2 (int_true_div_defined 0 total_pixels) Htp) as [q ->].
      simpl.
      destruct (threshold <? 0) eqn:E; [apply Z.ltb_lt in E; lia|].
      simpl.
      edestruct IH as (r & -> & Hr); [..|exists r]; [done|done|].
      by split.
Qed.

(** X9: a clip all of whose frames are equal once the mask region is
    zeroed is classified as not moving, for every pixel threshold that is
    not negative and every ratio threshold, provided the frame rate is not
    zero and the mask does not leave exactly zero comparable pixels. *)
Theorem static_clip_no_motion cap threshold tb ratio_threshold f0 rest :
  0 <= threshold ->
  isOpened cap = true ->
  frames cap = f0 :: rest ->
  PrimFloat.eqb (CAP_PROP_FPS cap) 0%float = false ->
  total_pixels_of tb (prepare tb f0) <> 0 ->
  Forall (fun f => fill_box black tb f = fill_box black tb f0) rest ->
  check_video_motion cap threshold tb ratio_threshold = Ok false.
Proof.
  intros HT Ho Hf Hfps Htp Hrest. unfold check_video_motion.
  rewrite Ho, Hf. simpl negb. cbv iota. unfold scan_frames, float_div.
  rewrite Hfps.
  assert (Hprep : Forall (fun f => prepare tb f = prepare tb f0) rest).
  { eapply Forall_impl; [exact Hrest|]. intros f Hfeq.
    by apply prepare_masked. }
  destruct (sampling_loop_static threshold tb ratio_threshold
              (Z.max 1 (CAP_PROP_FRAME_COUNT cap / 20))
              (total_pixels_of tb (prepare tb f0)) (prepare tb f0) rest
              {| has_motion := false; frame_idx := 0; max_diff := 0;
                 max_ratio := 0%float; total_checked_frames := 0;
                 prev_frame_gray := prepare tb f0 |}
              HT Htp Hprep eq_refl eq_refl) as (r & Hr & Hm).
  cbn [mbind res_bind]. rewrite Hr. simpl. by rewrite Hm.
Qed.

End StaticProps.

Lemma static_clip_no_motion_witness :
  0 <= default_threshold
  /\ PrimFloat.eqb (CAP_PROP_FPS static_clip) 0%float = false
  /\ total_pixels_of small_box (@prepare reference small_box (solid 7 2 2))
     <> 0
  /\ @check_video_motion reference static_clip default_threshold small_box
       default_ratio_threshold = Ok false.
Proof.
  assert (H1 : 0 <= default_threshold) by (vm_compute; discriminate).
  assert (H2 : isOpened static_clip = true) by reflexivity.
  assert (H3 : frames static_clip
               = solid 7 2 2 :: [solid 7 2 2; solid 7 2 2]) by reflexivity.
  assert (H4 : PrimFloat.eqb (CAP_PROP_FPS static_clip) 0%float = false)
    by reflexivity.
  assert (H5 : total_pixels_of small_box
                 (@prepare reference small_box (solid 7 2 2)) <> 0)
    by (vm_compute; discriminate).
  assert (H6 : Forall (fun f => fill_box black small_box f
                                = fill_box black small_box (solid 7 2 2))
                 [solid 7 2 2; solid 7 2 2]) by (repeat constructor).
  split; [exact H1|]. split; [exact H4|]. split; [exact H5|].
  exact (@static_clip_no_motion reference static_clip default_threshold
           small_box default_ratio_threshold _ _ H1 H2 H3 H4 H5 H6).
Defined.

(** ** Motion classifier: a mask larger than the frame *)

Lemma binary_round_aux_signed prec emax s m e l :
  sf_signed s (binary_round_aux prec emax s m e l).
Proof.
  unfold binary_round_aux.
  destruct (shr_fexp prec emax m e l) as [mrs' e'].
  destruct (shr_fexp _ _ _ _ _) as [mrs'' e''].
  destruct (shr_m mrs''); simpl; try done.
  by destruct (_ <=? _)%Z.
Qed.

Lemma binary_normalize_signed prec emax m e :
  0 <= m -> sf_signed false (binary_normalize prec emax m e false).
Proof.
  intros Hm. destruct m as [|p|p]; simpl; [done| |lia].
  unfold binary_round. destruct (shl_align _ _ _) as [mz ez].
  apply binary_round_aux_signed.
Qed.

Lemma SFdiv_signed prec emax sx sy x y :
  sf_signed sx x -> sf_signed sy y ->
  sf_signed (xorb sx sy) (SFdiv prec emax x y).
Proof.
  destruct x as [s1|s1| |s1 m1 e1], y as [s2|s2| |s2 m2 e2]; simpl;
    try done; try (by intros -> ->).
  intros -> ->. destruct (SFdiv_core_binary _ _ _ _ _ _) as [[mz ez] lz].
  apply binary_round_aux_signed.
Qed.

Lemma SFmul_signed prec emax sx sy x y :
  sf_signed sx x -> sf_signed sy y ->
  sf_signed (xorb sx sy) (SFmul prec emax x y).
Proof.
  destruct x as [s1|s1| |s1 m1 e1], y as [s2|s2| |s2 m2 e2]; simpl;
    try done; try (by intros -> ->).
  intros -> ->. apply binary_round_aux_signed.
Qed.

Lemma SFltb_negative r x :
  SFleb (S754_zero false) r = true -> sf_signed true x -> SFltb r x = false.
Proof.
  unfold SFleb, SFltb, SFcompare.
  destruct r as [s|s| |s m e], x as [s'|s'| |s' m' e']; simpl;
    try done; try destruct s; try done; try (by intros _ ->).
Qed.

Lemma int_to_float_signed z :
  sf_signed (z <? 0) (Prim2SF (int_to_float z)).
Proof.
  unfold int_to_float. destruct (z <? 0).
  - rewrite FloatAxioms.opp_spec, of_uint63_spec.
    pose proof (binary_normalize_signed prec emax
                  (Uint63.to_Z (Uint63.of_Z (- z))) 0) as H.
    destruct (binary_normalize _ _ _ _ _); simpl in *;
      try done; rewrite H; try done;
      pose proof (Uint63.to_Z_bounded (Uint63.of_Z (- z))); lia.
  - rewrite of_uint63_spec. apply binary_normalize_signed.
    pose proof (Uint63.to_Z_bounded (Uint63.of_Z z)). lia.
Qed.

Lemma count_nonzero_nonneg img : 0 <= count_nonzero img.
Proof. induction img as [|row img IH]; simpl; lia. Qed.

(** With a negative denominator no ratio is above a threshold that is not
    negative. *)
Lemma ratio_not_above (count total_pixels : Z) (ratio_threshold q : float) :
  0 <= count -> total_pixels < 0 ->
  PrimFloat.leb 0%float ratio_threshold = true ->
  int_true_div count total_pixels = Ok q ->
  PrimFloat.ltb ratio_threshold (PrimFloat.mul q (int_to_float 100)) = false.
Proof.
  intros Hc Htp HR Hq.
  rewrite FloatAxioms.leb_spec in HR. rewrite FloatAxioms.ltb_spec.
  apply SFltb_negative; [exact HR|].
  rewrite FloatAxioms.mul_spec.
  apply (SFmul_signed prec emax true false); [|apply (int_to_float_signed 100)].
  unfold int_true_div in Hq.
  destruct (total_pixels =? 0) eqn:E0; [done|].
  assert (Hneg : (total_pixels <? 0) = true) by by apply Z.ltb_lt.
  destruct (count =? 0) eqn:Ec.
  - rewrite Hneg in Hq. by injection Hq as <-.
  - injection Hq as <-. rewrite FloatAxioms.div_spec.
    apply (SFdiv_signed prec emax false true).
    + pose proof (int_to_float_signed count) as H.
      assert ((count <? 0) = false) as Hn by by apply Z.ltb_ge.
      by rewrite Hn in H.
    + pose proof (int_to_float_signed total_pixels) as H.
      by rewrite Hneg in H.
Qed.

Section OversizedMask.
Context {cv : OpenCV}.

Lemma sampling_loop_oversized threshold tb ratio_threshold check_interval
    total_pixels rest l r :
  total_pixels < 0 ->
  PrimFloat.leb 0%float ratio_threshold = true ->
  has_motion l = false ->
  sampling_loop threshold tb ratio_threshold check_interval total_pixels
    rest l = Ok r ->
  has_motion r = false.
Proof.
  intros Htp HR. revert l.
  induction rest as [|frame rest IH]; intros l Hl; simpl.
  - by intros [= <-].
  - destruct (negb _); [by apply IH|].
    unfold compare_frames.
    destruct (changed_pixels _ _) as [thresh|e]; simpl; [|done].
    rewrite count_div_nonzero by lia.
    destruct (int_true_div _ _) as [q|e] eqn:Hq; simpl; [|done].
    rewrite (ratio_not_above _ _ _ _ (count_nonzero_nonneg thresh) Htp HR Hq).
    rewrite andb_false_r. by apply IH.
Qed.

(** X10: when the mask rectangle's area exceeds the frame area, so that
    the denominator of the ratio is negative, no clip is ever classified
    as moving on the strength of its frames, for any ratio threshold that
    is not negative: a clip that yields a frame is classified as not
    moving or the call raises. *)
Theorem oversized_mask_never_motion cap threshold tb ratio_threshold
    f0 rest :
  isOpened cap = true ->
  frames cap = f0 :: rest ->
  total_pixels_of tb (prepare tb f0) < 0 ->
  PrimFloat.leb 0%float ratio_threshold = true ->
  check_video_motion cap threshold tb ratio_threshold <> Ok true.
Proof.
  intros Ho Hf Htp HR. unfold check_video_motion. rewrite Ho, Hf.
  simpl negb. cbv iota. unfold scan_frames.
  destruct (float_div _ _) as [d|e]; simpl; [|done].
  destruct (sampling_loop _ _ _ _ _ _ _) as [r|e] eqn:E; simpl; [|done].
  apply sampling_loop_oversized in E; [|done..]. by rewrite E.
Qed.

End OversizedMask.

Lemma oversized_mask_never_motion_witness :
  total_pixels_of tall_box (@prepare reference tall_box (solid 0 2 2)) < 0
  /\ PrimFloat.leb 0%float default_ratio_threshold = true
  /\ @check_video_motion reference three_frames 0 tall_box
       default_ratio_threshold = Ok false.
Proof.
  assert (H1 : isOpened three_frames = true) by reflexivity.
  assert (H2 : frames three_frames
               = solid 0 2 2 :: [solid 255 2 2; solid 0 2 2]) by reflexivity.
  assert (H3 : total_pixels_of tall_box
                 (@prepare reference tall_box (solid 0 2 2)) < 0)
    by (vm_compute; reflexivity).
  assert (H4 : PrimFloat.leb 0%float default_ratio_threshold = true)
    by reflexivity.
  split; [exact H3|]. split; [exact H4|].
  pose proof (@oversized_mask_never_motion reference three_frames 0
                tall_box default_ratio_threshold _ _ H1 H2 H3 H4)
    as Hno.
  destruct (@check_video_motion reference three_frames 0 tall_box
              default_ratio_threshold) as [[|]|e] eqn:E.
  - by destruct Hno.
  - reflexivity.
  - vm_compute in E. discriminate E.
Defined.

(** ** Folder orchestrator: what is kept and what is deleted *)

Lemma VideoCapture_delete_ne (f : FileSystem) (p q : string) :
  p <> q -> VideoCapture (delete p f) q = VideoCapture f q.
Proof. intros H. unfold VideoCapture. by rewrite lookup_delete_ne. Qed.

Lemma foldr_delete_delete (m : FileSystem) (p : string) (l : list string) :
  foldr (fun q acc => delete q acc) (delete p m) l
  = delete p (foldr (fun q acc => delete q acc) m l).
Proof.
  induction l as [|q l IH]; simpl; [done|]. by rewrite IH, delete_delete.
Qed.

Lemma lookup_foldr_delete (m : FileSystem) (l : list string) (p : string) :
  foldr (fun q acc => delete q acc) m l !! p
  = if decide (p ∈ l) then None else m !! p.
Proof.
  induction l as [|q l IH]; simpl.
  - destruct (decide (p ∈ [])) as [H|H]; [|done].
    by apply not_elem_of_nil in H.
  - rewrite lookup_delete, IH.
    destruct (decide (q = p)) as [Heq|Hne], (decide (p ∈ l)) as [Hl|Hl],
      (decide (p ∈ q :: l)) as [H|H]; try done.
    + exfalso. apply H. rewrite Heq. apply list_elem_of_here.
    + exfalso. apply H. rewrite Heq. apply list_elem_of_here.
    + exfalso. apply H. by apply list_elem_of_further.
    + exfalso. apply elem_of_cons in H as [Heq|H]; [by subst|done].
Qed.

Section FolderProps.
Context {cv : OpenCV}.

(** X11: processing a walk is processing its first part and then the
    rest, from the survivors and the file system the first part left; an
    exception in the first part is the exception of the whole. *)
Theorem process_files_app files files' threshold tb ratio_threshold kept st :
  process_files (files ++ files') threshold tb ratio_threshold kept st
  = match process_files files threshold tb ratio_threshold kept st with
    | Ok (kept1, st1) =>
        process_files files' threshold tb ratio_threshold kept1 st1
    | Raise e => Raise e
    end.
Proof.
  revert kept st. induction files as [|f files IH]; intros kept st; simpl.
  - done.
  - destruct (is_video f); [|apply IH].
    destruct (check_video_motion _ _ _ _) as [[|]|e]; simpl; [| |done];
      apply IH.
Qed.

Lemma process_files_partition files threshold tb ratio_threshold
    kept st kept' st' :
  NoDup files ->
  process_files files threshold tb ratio_threshold kept st = Ok (kept', st') ->
  kept' = kept ++ List.filter
            (fun p => is_video p
                      && keeps (verdict (fs st) threshold tb ratio_threshold p))
            files
  /\ fs st' = foldr (fun p acc => delete p acc) (fs st)
                (List.filter
                   (fun p => is_video p
                             && deletes (verdict (fs st) threshold tb
                                           ratio_threshold p))
                   files).
Proof.
  intros Hnd. revert kept st.
  induction Hnd as [|f files Hf Hnd IH]; intros kept st; simpl.
  - by intros [= <- <-]; rewrite app_nil_r.
  - destruct (is_video f); simpl; [|apply IH].
    change (check_video_motion (VideoCapture (fs st) f) threshold tb
              ratio_threshold)
      with (verdict (fs st) threshold tb ratio_threshold f).
    destruct (verdict (fs st) threshold tb ratio_threshold f)
      as [[|]|e] eqn:Hv; simpl; [| |done].
    + intros H. apply IH in H as [H1 H2]. split.
      * rewrite H1, <- app_assoc. reflexivity.
      * rewrite H2. reflexivity.
    + intros H.
      set (st1 := if os_path_exists _ _ then _ else _) in H.
      assert (Hfs : fs st1 = delete f (fs st)).
      { unfold st1, os_path_exists. simpl. case_bool_decide as Hex; simpl.
        - done.
        - symmetry. apply delete_id. by apply eq_None_not_Some. }
      apply IH in H as [H1 H2]. rewrite Hfs in H1, H2.
      assert (Hsame : forall p, In p files ->
                verdict (delete f (fs st)) threshold tb ratio_threshold p
                = verdict (fs st) threshold tb ratio_threshold p).
      { intros p Hp. unfold verdict. rewrite VideoCapture_delete_ne; [done|].
        intros ->. apply Hf. by apply list_elem_of_In. }
      split.
      * rewrite H1. f_equal. apply filter_ext_in. intros p Hp.
        by rewrite Hsame.
      * rewrite H2, foldr_delete_delete. f_equal. f_equal.
        apply filter_ext_in. intros p Hp. by rewrite Hsame.
Qed.

(** X12: on a walk without repetitions that ends without an exception,
    the survivors are, in walk order, the video files the classifier calls
    moving, each verdict being the one on the file as it was before the
    pass; the files removed are exactly the video files of the walk it
    calls not moving: every survivor, every file that is no video and
    every file outside the walk is left as it was. *)
Theorem process_files_outcome files threshold tb ratio_threshold
    kept st kept' st' :
  NoDup files ->
  process_files files threshold tb ratio_threshold kept st = Ok (kept', st') ->
  kept' = kept ++ List.filter
            (fun p => is_video p
                      && keeps (verdict (fs st) threshold tb ratio_threshold p))
            files
  /\ (forall p,
     p ∈ files -> is_video p = true ->
     verdict (fs st) threshold tb ratio_threshold p = Ok false ->
     fs st' !! p = None)
  /\ (forall p,
        p ∉ files \/ is_video p = false
        \/ verdict (fs st) threshold tb ratio_threshold p <> Ok false ->
        fs st' !! p = fs st !! p).
Proof.
  intros Hnd H. apply process_files_partition in H as [Hk ->]; [|done].
  split; [exact Hk|]. split; intros p.
  - intros Hp Hv Hs. rewrite lookup_foldr_delete.
    destruct (decide (p ∈ _)) as [Hin|Hin]; [done|].
    exfalso. apply Hin, list_elem_of_In, filter_In.
    split; [by apply list_elem_of_In|]. by rewrite Hv, Hs.
  - intros Hcase. rewrite lookup_foldr_delete.
    destruct (decide (p ∈ _)) as [Hin|Hin]; [|done].
    exfalso. apply list_elem_of_In, filter_In in Hin as [Hin Hp].
    apply andb_prop in Hp as [Hv Hd].
    destruct Hcase as [Hc|[Hc|Hc]].
    + apply Hc. by apply list_elem_of_In.
    + congruence.
    + apply Hc. unfold deletes in Hd.
      by destruct (verdict _ _ _ _ _) as [[|]|e].
Qed.

(** X13: a clip that yields a frame and reports a frame rate of zero
    makes the classification raise a division error, as
    [get_video_duration] does on it, and the exception ends the folder
    pass there: the files after it are not looked at and nothing is
    concatenated. *)
Theorem zero_fps_aborts env folder_path video_file files threshold
    concat tb ratio_threshold kept st :
  is_video video_file = true ->
  isOpened (VideoCapture (fs st) video_file) = true ->
  frames (VideoCapture (fs st) video_file) <> [] ->
  PrimFloat.eqb (CAP_PROP_FPS (VideoCapture (fs st) video_file)) 0%float
    = true ->
  get_video_duration (VideoCapture (fs st) video_file)
    = Raise ZeroDivisionError
  /\ process_files (video_file :: files) threshold tb ratio_threshold kept st
     = Raise ZeroDivisionError
  /\ process_video_folder env folder_path (video_file :: files) threshold
       concat tb ratio_threshold st = Raise ZeroDivisionError.
Proof.
  intros Hv Ho Hf Hfps.
  assert (Hraise : check_video_motion (VideoCapture (fs st) video_file)
                     threshold tb ratio_threshold = Raise ZeroDivisionError).
  { unfold check_video_motion. rewrite Ho. simpl.
    destruct (frames _) as [|f0 rest]; [done|].
    unfold scan_frames, float_div. by rewrite Hfps. }
  assert (Hall : forall kept0,
            process_files (video_file :: files) threshold tb ratio_threshold
              kept0 st = Raise ZeroDivisionError).
  { intros kept0. simpl. rewrite Hv. simpl. by rewrite Hraise. }
  split; [|split; [apply Hall|]].
  - unfold get_video_duration, float_div. by rewrite Ho, Hfps.
  - unfold process_video_folder. by rewrite Hall.
Qed.

End FolderProps.

Lemma process_files_outcome_witness :
  exists kept' st',
    @process_files reference mixed_walk 2 small_box 50%float [] mixed_folder
    = Ok (kept', st')
    /\ kept' = [moving_clip_path]
    /\ fs st' !! first_clip = None
    /\ fs st' !! notes_path = fs mixed_folder !! notes_path.
Proof.
  assert (Hnd : NoDup mixed_walk).
  { apply NoDup_cons. split; [compute_done|].
    apply NoDup_cons. split; [compute_done|].
    apply NoDup_singleton. }
  destruct (@process_files reference mixed_walk 2 small_box 50%float []
              mixed_folder) as [[kept' st']|e] eqn:E.
  - exists kept', st'. split; [reflexivity|].
    destruct (@process_files_outcome reference mixed_walk 2 small_box
                50%float [] mixed_folder kept' st' Hnd E) as (H1 & H2 & H3).
    split; [|split].
    + rewrite H1. vm_compute. reflexivity.
    + apply H2.
      * compute_done.
      * vm_compute. reflexivity.
      * vm_compute. reflexivity.
    + apply H3. right. left. vm_compute. reflexivity.
  - vm_compute in E. discriminate E.
Defined.

Lemma zero_fps_aborts_witness :
  is_video first_clip = true
  /\ PrimFloat.eqb (CAP_PROP_FPS (VideoCapture (fs zero_fps_folder) first_clip))
       0%float = true
  /\ @process_video_folder reference no_encoder "/v"
       [first_clip; moving_clip_path] default_threshold true
       default_time_box default_ratio_threshold zero_fps_folder
     = Raise ZeroDivisionError.
Proof.
  assert (H1 : is_video first_clip = true) by (vm_compute; reflexivity).
  assert (H2 : isOpened (VideoCapture (fs zero_fps_folder) first_clip) = true)
    by (vm_compute; reflexivity).
  assert (H3 : frames (VideoCapture (fs zero_fps_folder) first_clip) <> [])
    by (vm_compute; discriminate).
  assert (H4 : PrimFloat.eqb
                 (CAP_PROP_FPS (VideoCapture (fs zero_fps_folder) first_clip))
                 0%float = true) by (vm_compute; reflexivity).
  split; [exact H1|]. split; [exact H4|].
  exact (proj2 (proj2 (@zero_fps_aborts reference no_encoder "/v"%string
           first_clip [moving_clip_path] default_threshold true
           default_time_box default_ratio_threshold [] zero_fps_folder
           H1 H2 H3 H4))).
Defined.

(** ** Concatenator: the second pass and the files it touches *)




(** X15: when the first clip in temporal order opens and a writer opens,
    the first pass writes, at the first clip's frame rate and size, those
    frames of the clips in temporal order that have the size the first
    clip reports (a frame of another size is dropped by the writer);
    afterwards the output path holds what the external encoder makes of
    that file, and nothing when the encoder is missing or gives no output,
    the temporary path holds nothing, and the log ends with the two
    completion lines. *)
Theorem concatenate_videos_result env video_files output_path st :
  video_files <> [] ->
  isOpened (VideoCapture (fs st)
              (hd EmptyString (sorted_videos video_files))) = true ->
  codec_available env H264 || codec_available env mp4v = true ->
  let st' := concatenate_videos env video_files output_path st in
  let first_video :=
    VideoCapture (fs st) (hd EmptyString (sorted_videos video_files)) in
  let size := (CAP_PROP_FRAME_WIDTH first_video,
               CAP_PROP_FRAME_HEIGHT first_video) in
  let written := first_pass_file env video_files output_path st in
  fs st' !! output_path = ffmpeg env ≫= (fun encode => encode written)
  /\ fs st' !! (output_path +:+ ".temp.mp4")%string = None
  /\ (exists log,
        stdout st' = log ++ [MsgConcatDone output_path; MsgCompressDone])
  /\ frames written
     = filter (fun f => fits size f = true)
         (clip_frames (delete output_path (fs st))
            (sorted_videos video_files))
  /\ CAP_PROP_FPS written = CAP_PROP_FPS first_video
  /\ (CAP_PROP_FRAME_WIDTH written, CAP_PROP_FRAME_HEIGHT written) = size
  /\ CAP_PROP_FRAME_COUNT written = Z.of_nat (length (frames written)).
Proof.
  intros Hne Ho Hcodec. destruct video_files as [|v vs]; [done|]. cbv zeta.
  destruct (first_pass_state env v vs output_path st Ho Hcodec)
    as (S & -> & Hv & log & Hlog).
  destruct (compress_present env output_path S _ Hv) as (H1 & H2 & _ & H4).
  split; [exact H1|]. split; [exact H2|]. split; [|done].
  exists log. by rewrite H4, Hlog, <- app_assoc.
Qed.

Lemma concatenate_videos_result_witness :
  three_clips <> []
  /\ codec_available copying_encoder H264
     || codec_available copying_encoder mp4v = true
  /\ clip_frames (fs uneven_folder) (sorted_videos three_clips)
     = [solid 1 2 2; solid 2 3 3; solid 2 3 3; solid 3 2 2; solid 4 2 2]
  /\ frames <$> (fs (concatenate_videos copying_encoder three_clips
                       output_file uneven_folder) !! output_file)
     = Some [solid 1 2 2; solid 3 2 2; solid 4 2 2].
Proof.
  assert (H1 : three_clips <> []) by done.
  assert (H2 : isOpened (VideoCapture (fs uneven_folder)
                 (hd EmptyString (sorted_videos three_clips))) = true)
    by (vm_compute; reflexivity).
  assert (H3 : codec_available copying_encoder H264
               || codec_available copying_encoder mp4v = true)
    by reflexivity.
  split; [exact H1|]. split; [exact H3|]. split; [vm_compute; reflexivity|].
  rewrite (proj1 (concatenate_videos_result copying_encoder three_clips
                    output_file uneven_folder H1 H2 H3)).
  vm_compute. reflexivity.
Defined.


(** ** Concatenator: the order of the walk does not matter *)

Section SortedUnique.
Context {A K : Type} `{EqDecision K} (leb : K -> K -> bool) (key : A -> K).
Hypothesis leb_antisym :
  forall a b, leb a b = true -> leb b a = true -> a = b.

Lemma strongly_sorted_unique (l l' : list A) :
  NoDup (key <$> l) ->
  StronglySorted (fun a b => leb (key a) (key b) = true) l ->
  StronglySorted (fun a b => leb (key a) (key b) = true) l' ->
  l ≡ₚ l' -> l = l'.
Proof.
  revert l'. induction l as [|a l IH]; intros l' Hnd Hs Hs' Hp.
  - symmetry. by apply Permutation_nil.
  - destruct l' as [|b l'].
    { symmetry in Hp. by apply Permutation_nil_cons in Hp. }
    rewrite fmap_cons in Hnd. apply NoDup_cons in Hnd as [Hka Hnd].
    apply StronglySorted_inv in Hs as [Hs Ha].
    apply StronglySorted_inv in Hs' as [Hs' Hb].
    assert (a = b) as <-.
    { destruct (decide (key a = key b)) as [Hk|Hk].
      - assert (Hin : b ∈ a :: l) by (rewrite Hp; apply list_elem_of_here).
        apply elem_of_cons in Hin as [->|Hin]; [done|].
        exfalso. apply Hka. rewrite Hk. by apply list_elem_of_fmap_2.
      - exfalso. apply Hk. apply leb_antisym.
        + assert (Hin : b ∈ a :: l) by (rewrite Hp; apply list_elem_of_here).
          apply elem_of_cons in Hin as [->|Hin]; [done|].
          rewrite Forall_forall in Ha. by apply Ha.
        + assert (Hin : a ∈ b :: l')
            by (rewrite <- Hp; apply list_elem_of_here).
          apply elem_of_cons in Hin as [->|Hin]; [done|].
          rewrite Forall_forall in Hb. by apply Hb. }
    f_equal. apply IH; [done|done|done|].
    by apply Permutation_cons_inv in Hp.
Qed.

End SortedUnique.

Lemma tuple_leb_antisym a b :
  tuple_leb a b = true -> tuple_leb b a = true -> a = b.
Proof.
  destruct a as [a1 a2], b as [b1 b2]. unfold tuple_leb. simpl.
  rewrite !orb_true_iff, !andb_true_iff, !Z.ltb_lt, !Z.eqb_eq, !Z.leb_le.
  intros H1 H2. f_equal; lia.
Qed.

(** X16: when no two clips have the same temporal key, the order in which
    the survivors are handed over does not matter: two lists with the same
    clips are concatenated in the same way, with the same effect on the
    files and the same log. *)
Theorem concatenate_videos_any_order env video_files video_files'
    output_path st :
  video_files ≡ₚ video_files' ->
  NoDup (temporal_key <$> video_files) ->
  sorted_videos video_files = sorted_videos video_files'
  /\ concatenate_videos env video_files output_path st
     = concatenate_videos env video_files' output_path st.
Proof.
  intros Hp Hnd.
  assert (Hs : sorted_videos video_files = sorted_videos video_files').
  { unfold sorted_videos.
    apply (strongly_sorted_unique tuple_leb temporal_key tuple_leb_antisym).
    - by rewrite sorted_perm.
    - apply sorted_ordered; [apply tuple_leb_total|apply tuple_leb_trans].
    - apply sorted_ordered; [apply tuple_leb_total|apply tuple_leb_trans].
    - by rewrite !sorted_perm. }
  split; [exact Hs|].
  unfold concatenate_videos. rewrite Hs.
  destruct video_files as [|v vs], video_files' as [|v' vs']; try done.
  - by apply Permutation_nil_cons in Hp.
  - symmetry in Hp. by apply Permutation_nil_cons in Hp.
Qed.

Lemma concatenate_videos_any_order_witness :
  three_clips ≡ₚ rev three_clips
  /\ NoDup (temporal_key <$> three_clips)
  /\ concatenate_videos no_encoder three_clips output_file three_clip_folder
     = concatenate_videos no_encoder (rev three_clips) output_file
         three_clip_folder.
Proof.
  assert (H1 : three_clips ≡ₚ rev three_clips) by apply Permutation_rev.
  assert (H2 : NoDup (temporal_key <$> three_clips)) by compute_done.
  split; [exact H1|]. split; [exact H2|].
  exact (proj2 (concatenate_videos_any_order no_encoder three_clips
                  (rev three_clips) output_file three_clip_folder H1 H2)).
Defined.

(** ** Motion classifier: a threshold no frame can exceed *)

Lemma pixels_cons {A} (row : list A) (img : image A) :
  pixels (row :: img) = Z.of_nat (length row) + pixels img.
Proof. unfold pixels. simpl. rewrite length_app. lia. Qed.

Lemma count_nonzero_le img : count_nonzero img <= pixels img.
Proof.
  induction img as [|row img IH]; [done|].
  rewrite pixels_cons. simpl.
  pose proof (length_filter (fun v : Z => v <> 0) row). lia.
Qed.

Lemma pixels_imap {A B} (g : nat -> list A -> list B) (img : image A) :
  (forall y row, length (g y row) = length row) ->
  pixels (imap g img) = pixels img.
Proof.
  revert g. induction img as [|row img IH]; intros g Hg; [done|].
  simpl. rewrite !pixels_cons, Hg, IH; [done|]. intros y r. apply Hg.
Qed.

Lemma pixels_fmap {A B} (g : list A -> list B) (img : image A) :
  (forall row, length (g row) = length row) ->
  pixels (g <$> img) = pixels img.
Proof.
  intros Hg. induction img as [|row img IH]; [done|].
  rewrite fmap_cons, !pixels_cons, Hg, IH. done.
Qed.

Lemma pixels_dilate img n : pixels (dilate img n) = pixels img.
Proof.
  revert img. induction n as [|n IH]; intros img; simpl; [done|].
  rewrite IH. unfold dilate_once. apply pixels_imap.
  intros y row. apply length_imap.
Qed.

Lemma pixels_absdiff a b d : absdiff a b = Ok d -> pixels d <= pixels a.
Proof.
  unfold absdiff. destruct (_ && _); [|done]. intros [= <-].
  revert b. induction a as [|row a IH]; intros [|row' b]; simpl;
    try (unfold pixels; simpl; lia).
  rewrite !pixels_cons. specialize (IH b).
  pose proof (length_zip_with (fun u v => Z.abs (u - v)) row row'). lia.
Qed.

Lemma changed_pixels_le frame_gray prev_gray thresh :
  changed_pixels frame_gray prev_gray = Ok thresh ->
  count_nonzero thresh <= pixels frame_gray.
Proof.
  unfold changed_pixels.
  destruct (absdiff _ _) as [d|e] eqn:E; [|done].
  change (Ok (dilate (threshold d 25 255) 2) = Ok thresh ->
          count_nonzero thresh <= pixels frame_gray).
  intros [= <-].
  pose proof (count_nonzero_le (dilate (threshold d 25 255) 2)) as H.
  rewrite pixels_dilate in H. unfold threshold in H.
  rewrite pixels_fmap in H by (intros row; apply length_fmap).
  apply pixels_absdiff in E.
  change (count_nonzero (dilate (threshold d 25 255) 2) <= pixels frame_gray).
  unfold threshold. lia.
Qed.

Section ThresholdProps.
Context {cv : OpenCV}.

Lemma sampling_loop_high_threshold threshold tb ratio_threshold
    check_interval total_pixels rest l r :
  Forall (fun f => pixels (prepare tb f) <= threshold) rest ->
  has_motion l = false ->
  sampling_loop threshold tb ratio_threshold check_interval total_pixels
    rest l = Ok r ->
  has_motion r = false.
Proof.
  intros Hrest. revert l.
  induction Hrest as [|frame rest Hf Hrest IH]; intros l Hl; simpl.
  - by intros [= <-].
  - destruct (negb _); [by apply IH|].
    unfold compare_frames.
    destruct (changed_pixels _ _) as [thresh|e] eqn:Hc; simpl; [|done].
    destruct (count_div _ _) as [q|e]; simpl; [|done].
    apply changed_pixels_le in Hc.
    destruct (threshold <? count_nonzero thresh) eqn:E;
      [apply Z.ltb_lt in E; lia|].
    simpl. by apply IH.
Qed.

(** X17: a pixel threshold that is at least the number of pixels of the
    prepared frames switches detection off: no clip that yields a frame is
    classified as moving, whatever its frames show and whatever the ratio
    threshold is. *)
Theorem high_threshold_never_motion cap threshold tb ratio_threshold
    f0 rest :
  isOpened cap = true ->
  frames cap = f0 :: rest ->
  Forall (fun f => pixels (prepare tb f) <= threshold) rest ->
  check_video_motion cap threshold tb ratio_threshold <> Ok true.
Proof.
  intros Ho Hf Hrest. unfold check_video_motion. rewrite Ho, Hf.
  simpl negb. cbv iota. unfold scan_frames.
  destruct (float_div _ _) as [d|e]; simpl; [|done].
  destruct (sampling_loop _ _ _ _ _ _ _) as [r|e] eqn:E; simpl; [|done].
  apply sampling_loop_high_threshold in E; [|done..]. by rewrite E.
Qed.

End ThresholdProps.

Lemma high_threshold_never_motion_witness :
  Forall (fun f => pixels (@prepare reference small_box f) <= 4)
    [solid 255 2 2; solid 0 2 2]
  /\ @check_video_motion reference three_frames 4 small_box 0%float
     = Ok false.
Proof.
  assert (H1 : isOpened three_frames = true) by reflexivity.
  assert (H2 : frames three_frames
               = solid 0 2 2 :: [solid 255 2 2; solid 0 2 2]) by reflexivity.
  assert (H3 : Forall (fun f => pixels (@prepare reference small_box f) <= 4)
                 [solid 255 2 2; solid 0 2 2])
    by (repeat constructor; vm_compute; discriminate).
  split; [exact H3|].
  pose proof (@high_threshold_never_motion reference three_frames 4
                small_box 0%float _ _ H1 H2 H3) as Hno.
  destruct (@check_video_motion reference three_frames 4 small_box 0%float)
    as [[|]|e] eqn:E.
  - by destruct Hno.
  - reflexivity.
  - vm_compute in E. discriminate E.
Defined.
